(** * The conversation chunking engine of total_recall

    A shallow embedding of [src/cli/chunker_engine.py] (class
    [ChunkerEngine]) and the properties its specification states about
    it.

    Python values are modelled as follows.
    - [str] is [string]; every [ascii] is read as the code point of the
      same number (U+0000 to U+00FF).
    - [int] is [Z].
    - a conversation and a message, which the source handles as dicts
      with string keys, are records whose optional keys are [option]
      fields.  [json.dumps] writes the keys of a dict in insertion order;
      the engine only ever takes the length of the text, and the length
      does not depend on that order, so the records are written in one
      fixed order.
    - a Python list is a [list]; [l.append(x)] is [l ++ [x]].  Every list
      the engine appends to is rebound to a fresh list right after it has
      been stored in a chunk, so no stored list is mutated afterwards.
    - a Python [set] of words is the list of its distinct elements, in an
      order that belongs to the interpreter (the string hash is seeded
      per process). *)

From Stdlib Require Import ZArith String Ascii List Lia.
From stdpp Require Import base option list sorting gmap strings pretty.

Open Scope string_scope.
Open Scope list_scope.
Open Scope Z_scope.

(** ** [json.dumps] and [len] on the values the engine serialises *)

Module Json.

Definition dquote : ascii := "034"%char.
Definition bslash : ascii := "092"%char.

(** One lower-case hexadecimal digit, as [format(n, 'x')] prints it. *)
Definition hex_digit (n : N) : ascii :=
  ascii_of_N (if (n <? 10)%N then 48 + n else 87 + n)%N.

(** [json.encoder.py_encode_basestring_ascii] on one character:
    printable ASCII passes, the quote, the backslash and the five short
    control escapes take two characters, everything else is written as
    a [\uXXXX] escape. *)
Definition escape_char (c : ascii) : string :=
  let n := N_of_ascii c in
  if (n =? 34)%N then String bslash (String dquote "")
  else if (n =? 92)%N then String bslash (String bslash "")
  else if (n =? 10)%N then String bslash "n"
  else if (n =? 13)%N then String bslash "r"
  else if (n =? 9)%N then String bslash "t"
  else if (n =? 12)%N then String bslash "f"
  else if (n =? 8)%N then String bslash "b"
  else if ((32 <=? n) && (n <=? 126))%N then String c ""
  else String bslash
         ("u00" +:+ String (hex_digit (n / 16)) (String (hex_digit (n mod 16)) "")).

Fixpoint escape (s : string) : string :=
  match s with
  | EmptyString => ""
  | String c s' => escape_char c +:+ escape s'
  end.

(** [json.dumps(s)] for a [str]. *)
Definition dumps_str (s : string) : string :=
  String dquote (escape s +:+ String dquote "").

(** [json.dumps(n)] for an [int]. *)
Definition dumps_int (n : Z) : string := pretty n.

(** An object is its items joined by [", "] between braces, an item is
    [key: value]; an array likewise between brackets. *)
Definition dumps_item (key value : string) : string :=
  dumps_str key +:+ ": " +:+ value.

Definition dumps_object (items : list string) : string :=
  "{" +:+ String.concat ", " items +:+ "}".

Definition dumps_array (items : list string) : string :=
  "[" +:+ String.concat ", " items +:+ "]".

(** The item of an optional key: nothing when the key is absent. *)
Definition opt_item {A : Type} (key : string) (dump : A -> string)
    (v : option A) : list string :=
  match v with
  | Some x => [dumps_item key (dump x)]
  | None => []
  end.

(** The item of a marker key, which is either absent or [true]. *)
Definition flag_item (key : string) (b : bool) : list string :=
  if b then [dumps_item key "true"] else [].

End Json.

(** ** Data model *)

(** A message: [{"role": ..., "content": ..., "timestamp": ...}], every
    key optional. *)
Record Message := {
  role : option string;
  content : option string;
  timestamp : option Z
}.

(** A conversation: [{"id": ..., "title": ..., "messages": [...]}], every
    key optional, and the two marker keys the engine adds to the copies it
    derives ([false] is an absent key). *)
Record Conversation := {
  conv_id : option string;
  title : option string;
  messages : option (list Message);
  _chunked : bool;
  _chunked_by_role : bool
}.

(** A chunk: [{"conversations": ..., "token_count": ...,
    "chunk_strategy": ...}]. *)
Record Chunk := {
  conversations : list Conversation;
  token_count : Z;
  chunk_strategy : string
}.

#[global] Instance Message_eq_dec : EqDecision Message.
Proof. solve_decision. Defined.

#[global] Instance Conversation_eq_dec : EqDecision Conversation.
Proof. solve_decision. Defined.

#[global] Instance Chunk_eq_dec : EqDecision Chunk.
Proof. solve_decision. Defined.

#[global] Instance Conversation_inhabited : Inhabited Conversation :=
  populate {| conv_id := None; title := None; messages := None;
              _chunked := false; _chunked_by_role := false |}.

(** [json.dumps(msg)] *)
Definition dumps_message (msg : Message) : string :=
  Json.dumps_object
    (Json.opt_item "role" Json.dumps_str (role msg)
     ++ Json.opt_item "content" Json.dumps_str (content msg)
     ++ Json.opt_item "timestamp" Json.dumps_int (timestamp msg)).

(** [json.dumps(conv)] *)
Definition dumps_conversation (conv : Conversation) : string :=
  Json.dumps_object
    (Json.opt_item "id" Json.dumps_str (conv_id conv)
     ++ Json.opt_item "title" Json.dumps_str (title conv)
     ++ Json.opt_item "messages"
          (fun ms => Json.dumps_array (dumps_message <$> ms)) (messages conv)
     ++ Json.flag_item "_chunked" (_chunked conv)
     ++ Json.flag_item "_chunked_by_role" (_chunked_by_role conv)).

(** [conv.get("messages", [])] *)
Definition get_messages (conv : Conversation) : list Message :=
  default [] (messages conv).

(** [c = conv.copy(); c["messages"] = ms; c["_chunked"] = True] *)
Definition chunked_copy (conv : Conversation) (ms : list Message) : Conversation :=
  {| conv_id := conv_id conv; title := title conv; messages := Some ms;
     _chunked := true; _chunked_by_role := _chunked_by_role conv |}.

(** [c = conv.copy(); c["messages"] = ms; c["_chunked_by_role"] = True] *)
Definition role_copy (conv : Conversation) (ms : list Message) : Conversation :=
  {| conv_id := conv_id conv; title := title conv; messages := Some ms;
     _chunked := _chunked conv; _chunked_by_role := true |}.

(** ** The engine *)

Record ChunkerEngine := { output_dir : string }.

(** [ChunkerEngine.count_tokens]: [len(text) // 4]. *)
Definition count_tokens (self : ChunkerEngine) (text : string) : Z :=
  Z.of_nat (String.length text) / 4.

Definition conv_tokens (self : ChunkerEngine) (conv : Conversation) : Z :=
  count_tokens self (dumps_conversation conv).

Definition msg_tokens (self : ChunkerEngine) (msg : Message) : Z :=
  count_tokens self (dumps_message msg).

(** *** Splitting a run of messages (lines 73-107 and 244-278)

    The size strategy and the role strategy contain the same loop; they
    differ in the copy they store, which is the parameter [emit]. *)

Definition split_state : Type := list Chunk * list Message * Z.

(** The body of [for msg in messages] (lines 76-96, 247-267). *)
Definition split_step (self : ChunkerEngine) (emit : list Message -> Z -> Chunk)
    (max_tokens : Z) (st : split_state) (msg : Message) : split_state :=
  let '(chunks, temp_messages, temp_tokens) := st in
  let msg_tokens := msg_tokens self msg in
  if max_tokens <? temp_tokens + msg_tokens then
    match temp_messages with
    | [] => (chunks, temp_messages, temp_tokens)
    | _ :: _ => (chunks ++ [emit temp_messages temp_tokens], [msg], msg_tokens)
    end
  else (chunks, temp_messages ++ [msg], temp_tokens + msg_tokens).

(** The last temp chunk (lines 99-107, 270-278). *)
Definition split_finish (emit : list Message -> Z -> Chunk) (st : split_state)
    : list Chunk :=
  let '(chunks, temp_messages, temp_tokens) := st in
  match temp_messages with
  | [] => chunks
  | _ :: _ => chunks ++ [emit temp_messages temp_tokens]
  end.

Definition split_messages (self : ChunkerEngine) (emit : list Message -> Z -> Chunk)
    (max_tokens : Z) (chunks : list Chunk) (msgs : list Message) : list Chunk :=
  split_finish emit
    (fold_left (split_step self emit max_tokens) msgs (chunks, [], 0)).

(** *** [chunk_by_size] *)

Definition size_chunk (convs : list Conversation) (tokens : Z) : Chunk :=
  {| conversations := convs; token_count := tokens; chunk_strategy := "size" |}.

Definition size_piece (conv : Conversation) (ms : list Message) (tokens : Z) : Chunk :=
  size_chunk [chunked_copy conv ms] tokens.

Definition pack_state : Type := list Chunk * list Conversation * Z.

(** The body of [for conv in conversations] (lines 52-121). *)
Definition size_step (self : ChunkerEngine) (max_tokens : Z) (st : pack_state)
    (conv : Conversation) : pack_state :=
  let '(chunks, current_chunk, current_tokens) := st in
  let conv_tokens := conv_tokens self conv in
  if max_tokens <? conv_tokens then
    let chunks :=
      match current_chunk with
      | [] => chunks
      | _ :: _ => chunks ++ [size_chunk current_chunk current_tokens]
      end in
    let '(current_chunk, current_tokens) :=
      match current_chunk with
      | [] => (current_chunk, current_tokens)
      | _ :: _ => ([], 0)
      end in
    (split_messages self (size_piece conv) max_tokens chunks (get_messages conv),
     current_chunk, current_tokens)
  else if current_tokens + conv_tokens <=? max_tokens then
    (chunks, current_chunk ++ [conv], current_tokens + conv_tokens)
  else
    (chunks ++ [size_chunk current_chunk current_tokens], [conv], conv_tokens).

(** The last chunk (lines 124-129, 296-301). *)
Definition pack_finish (mk : list Conversation -> Z -> Chunk) (st : pack_state)
    : list Chunk :=
  let '(chunks, current_chunk, current_tokens) := st in
  match current_chunk with
  | [] => chunks
  | _ :: _ => chunks ++ [mk current_chunk current_tokens]
  end.

Definition chunk_by_size (self : ChunkerEngine) (conversations : list Conversation)
    (max_tokens : Z) : list Chunk :=
  pack_finish size_chunk
    (fold_left (size_step self max_tokens) conversations ([], [], 0)).

(** *** [chunk_by_topic] *)

Module Re.

(** [re]'s [\w] on the code points below 256: letters, digits (also
    superscripts and fractions) and the underscore. *)
Definition is_word_char (c : ascii) : bool :=
  let n := N_of_ascii c in
  ((48 <=? n) && (n <=? 57) || (65 <=? n) && (n <=? 90) || (n =? 95)
   || (97 <=? n) && (n <=? 122)
   || (n =? 170) || (n =? 178) || (n =? 179) || (n =? 181) || (n =? 185)
   || (n =? 186) || (n =? 188) || (n =? 189) || (n =? 190)
   || (192 <=? n) && (n <=? 214) || (216 <=? n) && (n <=? 246)
   || (248 <=? n) && (n <=? 255))%N.

(** [str.lower] on one code point below 256. *)
Definition lower_char (c : ascii) : ascii :=
  let n := N_of_ascii c in
  if ((65 <=? n) && (n <=? 90)
      || (192 <=? n) && (n <=? 222) && negb (n =? 215))%N
  then ascii_of_N (n + 32) else c.

Fixpoint lower (s : string) : string :=
  match s with
  | EmptyString => EmptyString
  | String c s' => String (lower_char c) (lower s')
  end.

(** [re.findall(r'\w+', s)]: the maximal runs of word characters, in
    order; [cur] is the run being read. *)
Fixpoint findall_words_from (cur : string) (s : string) : list string :=
  match s with
  | EmptyString => if bool_decide (cur = "") then [] else [cur]
  | String c s' =>
      if is_word_char c then findall_words_from (cur +:+ String c "") s'
      else (if bool_decide (cur = "") then [] else [cur])
             ++ findall_words_from "" s'
  end.

Definition findall_words (s : string) : list string :=
  findall_words_from "" s.

End Re.

(** The topic indicator of a conversation (lines 143-151). *)
Definition topic_signal (conv : Conversation) : string :=
  let title := default "" (title conv) in
  if bool_decide (title = "") then
    match messages conv with
    | Some (msg :: _) => default "" (content msg)
    | _ => ""
    end
  else title.

(** What a run depends on besides its arguments: the interpreter, whose
    string hash is seeded anew for every process and fixes the order in
    which a [set] holds its elements.  [set_layout] is that order: some
    arrangement of the distinct elements. *)
Record Interpreter := {
  set_layout : list string -> list string;
  set_layout_distinct : forall l, set_layout l ≡ₚ remove_dups l
}.

(** [set(re.findall(r'\w+', topic.lower()))] *)
Definition topic_words (py : Interpreter) (topic : string) : list string :=
  set_layout py (Re.findall_words (Re.lower topic)).

(** [a & b] on two sets. *)
Definition set_and (a b : list string) : list string :=
  filter (fun word => word ∈ b) a.

(** [similarity > 0.3] (lines 173-178), where [similarity] is the number
    of common words divided by [max(1, number of words of the seed)].
    Both numbers are small integers, the quotient is correctly rounded
    and [0.3] is the double nearest to 3/10, so the comparison holds
    exactly when 3 * denominator < 10 * numerator. *)
Definition similar (py : Interpreter) (topic_i topic_j : string) : bool :=
  let common_words := set_and (topic_words py topic_i) (topic_words py topic_j) in
  bool_decide (3 * Z.max 1 (Z.of_nat (length (topic_words py topic_i)))
               < 10 * Z.of_nat (length common_words)).

(** A cluster: [{"indices": ..., "token_count": ...}]. *)
Record Cluster := {
  indices : list nat;
  cluster_token_count : Z
}.

Definition scan_state : Type := list nat * list bool * Z.

(** The body of [for j in range(i + 1, len(conversations))] (lines
    167-183).  The indices come from [range(len(conversations))], so the
    lookups never leave the lists. *)
Definition scan_step (py : Interpreter) (self : ChunkerEngine)
    (conversations : list Conversation)
    (topics : list string) (max_tokens : Z) (i : nat) (st : scan_state) (j : nat)
    : scan_state :=
  let '(cluster, assigned, cluster_tokens) := st in
  if (assigned !!! j : bool) then st
  else if similar py (topics !!! i) (topics !!! j) then
    let conv_tokens := conv_tokens self (conversations !!! j) in
    if cluster_tokens + conv_tokens <=? max_tokens then
      (cluster ++ [j], <[j:=true]> assigned, cluster_tokens + conv_tokens)
    else st
  else st.

(** The body of [for i in range(len(conversations))] (lines 158-188). *)
Definition seed_step (py : Interpreter) (self : ChunkerEngine)
    (conversations : list Conversation)
    (topics : list string) (max_tokens : Z) (st : list Cluster * list bool)
    (i : nat) : list Cluster * list bool :=
  let '(clusters, assigned) := st in
  if (assigned !!! i : bool) then st
  else
    let n := length conversations in
    let '(cluster, assigned, cluster_tokens) :=
      fold_left (scan_step py self conversations topics max_tokens i)
        (seq (S i) (n - S i))
        ([i], <[i:=true]> assigned, conv_tokens self (conversations !!! i)) in
    (clusters ++ [{| indices := cluster; cluster_token_count := cluster_tokens |}],
     assigned).

(** The clusters of lines 155-188. *)
Definition topic_clusters (py : Interpreter) (self : ChunkerEngine)
    (conversations : list Conversation) (max_tokens : Z) : list Cluster :=
  let topics := topic_signal <$> conversations in
  let n := length conversations in
  (fold_left (seed_step py self conversations topics max_tokens)
     (seq 0 n) ([], replicate n false)).1.

Definition topic_chunk (convs : list Conversation) (tokens : Z) : Chunk :=
  {| conversations := convs; token_count := tokens; chunk_strategy := "topic" |}.

(** One cluster turned into a chunk (lines 192-198). *)
Definition cluster_chunk (conversations : list Conversation) (cluster : Cluster)
    : Chunk :=
  topic_chunk ((fun i => conversations !!! i) <$> indices cluster)
    (cluster_token_count cluster).

Definition chunk_by_topic (py : Interpreter) (self : ChunkerEngine)
    (conversations : list Conversation) (max_tokens : Z) : list Chunk :=
  cluster_chunk conversations <$> topic_clusters py self conversations max_tokens.

(** *** [chunk_by_role] *)

Definition group_state : Type := list (list Message) * option string * list Message.

(** The body of [for msg in messages] (lines 217-225); a message without
    a role has the role [None], which is also the initial
    [current_role]. *)
Definition group_step (st : group_state) (msg : Message) : group_state :=
  let '(role_groups, current_role, current_group) := st in
  let msg_role := role msg in
  if bool_decide (msg_role ≠ current_role) && bool_decide (current_group ≠ []) then
    (role_groups ++ [current_group], msg_role, [msg])
  else (role_groups, msg_role, current_group ++ [msg]).

(** The role groups of one conversation (lines 213-229). *)
Definition role_groups_of (messages : list Message) : list (list Message) :=
  let '(role_groups, _, current_group) :=
    fold_left group_step messages ([], None, []) in
  match current_group with
  | [] => role_groups
  | _ :: _ => role_groups ++ [current_group]
  end.

Definition role_chunk (convs : list Conversation) (tokens : Z) : Chunk :=
  {| conversations := convs; token_count := tokens; chunk_strategy := "role" |}.

Definition role_piece (conv : Conversation) (ms : list Message) (tokens : Z) : Chunk :=
  role_chunk [role_copy conv ms] tokens.

(** The body of [for group in role_groups] (lines 232-293).  The branch
    of an oversized group leaves [current_chunk] and [current_tokens] as
    they are. *)
Definition role_group_step (self : ChunkerEngine) (max_tokens : Z)
    (conv : Conversation) (st : pack_state) (group : list Message) : pack_state :=
  let '(chunks, current_chunk, current_tokens) := st in
  let group_conv := role_copy conv group in
  let group_tokens := conv_tokens self group_conv in
  if max_tokens <? group_tokens then
    (split_messages self (role_piece conv) max_tokens chunks group,
     current_chunk, current_tokens)
  else if current_tokens + group_tokens <=? max_tokens then
    (chunks, current_chunk ++ [group_conv], current_tokens + group_tokens)
  else
    (match current_chunk with
     | [] => chunks
     | _ :: _ => chunks ++ [role_chunk current_chunk current_tokens]
     end,
     [group_conv], group_tokens).

(** The body of [for conv in conversations] (lines 209-293). *)
Definition role_step (self : ChunkerEngine) (max_tokens : Z) (st : pack_state)
    (conv : Conversation) : pack_state :=
  fold_left (role_group_step self max_tokens conv)
    (role_groups_of (get_messages conv)) st.

Definition chunk_by_role (self : ChunkerEngine) (conversations : list Conversation)
    (max_tokens : Z) : list Chunk :=
  pack_finish role_chunk
    (fold_left (role_step self max_tokens) conversations ([], [], 0)).

(** *** [process_file] *)

(** [os.path] on POSIX paths. *)
Module Path.

(** [os.path.basename]: what follows the last slash. *)
Fixpoint basename_from (cur : string) (p : string) : string :=
  match p with
  | EmptyString => cur
  | String c p' =>
      if Ascii.eqb c "/" then basename_from "" p'
      else basename_from (cur +:+ String c "") p'
  end.

Definition basename (p : string) : string := basename_from "" p.

(** The position of the last dot. *)
Fixpoint rfind_dot (p : string) : option nat :=
  match p with
  | EmptyString => None
  | String c p' =>
      match rfind_dot p' with
      | Some k => Some (S k)
      | None => if Ascii.eqb c "." then Some 0%nat else None
      end
  end.

Fixpoint all_dots (p : string) : bool :=
  match p with
  | EmptyString => true
  | String c p' => Ascii.eqb c "." && all_dots p'
  end.

(** [os.path.splitext] on a name without a slash: split at the last
    dot, unless only dots come before it. *)
Definition splitext (p : string) : string * string :=
  match rfind_dot p with
  | Some d =>
      let stem := substring 0 d p in
      if all_dots stem then (p, "")
      else (stem, substring d (String.length p - d) p)
  | None => (p, "")
  end.

Fixpoint ends_with_slash (p : string) : bool :=
  match p with
  | EmptyString => false
  | String c EmptyString => Ascii.eqb c "/"
  | String _ p' => ends_with_slash p'
  end.

(** [os.path.join] of two components. *)
Definition join (a b : string) : string :=
  match b with
  | String "/" _ => b
  | _ =>
      if bool_decide (a = "") || ends_with_slash a then a +:+ b
      else a +:+ "/" +:+ b
  end.

End Path.

(** The dict [process_file] writes (lines 342-349). *)
Record ProcessingResult := {
  chunks : list Chunk;
  original_file : string;
  chunking_strategy : string;
  max_tokens_per_chunk : Z;
  total_chunks : Z;
  total_conversations : Z
}.

(** What a path holds, as far as [open], [json.load] and the format test
    of lines 313-318 can tell. *)
Inductive File :=
  | Unreadable (err : string)
      (* a directory, or a file that [open(path, 'r')] is refused, with the
         message of the [OSError] *)
  | NotJson (err : string)
      (* a text that [json.load] rejects, with the decoder's message *)
  | JsonList (convs : list Conversation)
      (* an array of conversations *)
  | JsonDict (conversations_key : option (list Conversation))
      (* an object, with or without the key [conversations] *)
  | JsonScalar
      (* a number, a string, [true], [false] or [null] *)
  | JsonResult (r : ProcessingResult)
      (* the object of lines 342-349, which has no key [conversations] *).

(** [repr] of a [str], which [str] of an [OSError] applies to the file
    name ([unicode_repr]): between single quotes, or between double quotes
    when the text holds a single quote and no double quote; the quote in
    use and the backslash are escaped, tab, newline and carriage return
    are written [\t], [\n] and [\r], every other character that is not
    printable as [\xhh]. *)
Module Repr.

Definition squote : ascii := "039"%char.

Fixpoint has_char (c : ascii) (s : string) : bool :=
  match s with
  | EmptyString => false
  | String c' s' => Ascii.eqb c c' || has_char c s'
  end.

Definition quote_of (s : string) : ascii :=
  if has_char squote s && negb (has_char Json.dquote s) then Json.dquote
  else squote.

(** [str.isprintable] on a code point below 256. *)
Definition printable (n : N) : bool :=
  ((32 <=? n) && (n <=? 126) || (161 <=? n) && negb (n =? 173))%N.

Definition repr_char (quote c : ascii) : string :=
  let n := N_of_ascii c in
  if Ascii.eqb c quote || (n =? 92)%N then String Json.bslash (String c "")
  else if (n =? 9)%N then String Json.bslash "t"
  else if (n =? 10)%N then String Json.bslash "n"
  else if (n =? 13)%N then String Json.bslash "r"
  else if printable n then String c ""
  else String Json.bslash
         ("x" +:+ String (Json.hex_digit (n / 16))
                    (String (Json.hex_digit (n mod 16)) "")).

Fixpoint repr_chars (quote : ascii) (s : string) : string :=
  match s with
  | EmptyString => ""
  | String c s' => repr_char quote c +:+ repr_chars quote s'
  end.

Definition repr (s : string) : string :=
  String (quote_of s) (repr_chars (quote_of s) s +:+ String (quote_of s) "").

End Repr.

(** The exceptions of lines 310-318 and of the [open] of line 341. *)
Inductive exn :=
  | FileNotFoundError (path : string)
  | OSError (msg : string)
  | JSONDecodeError (msg : string)
  | ValueError (msg : string).

(** [str(e)]. *)
Definition exn_str (e : exn) : string :=
  match e with
  | FileNotFoundError path =>
      "[Errno 2] No such file or directory: " +:+ Repr.repr path
  | OSError msg => msg
  | JSONDecodeError msg => msg
  | ValueError msg => msg
  end.

(** The files, the lines printed so far, and the paths that
    [open(path, 'w')] refuses, each with the message of the [OSError] it
    raises (a name that is too long, a directory that is gone or may not
    be written to). *)
Record World := {
  files : gmap string File;
  stdout : list string;
  write_error : string -> option string
}.

Definition print (line : string) (w : World) : World :=
  {| files := files w; stdout := stdout w ++ [line];
     write_error := write_error w |}.

Definition write_file (path : string) (f : File) (w : World) : World :=
  {| files := <[path := f]> (files w); stdout := stdout w;
     write_error := write_error w |}.

(** [with open(file_path, 'r') as f: data = json.load(f)] *)
Definition json_load (w : World) (file_path : string) : exn + File :=
  match files w !! file_path with
  | None => inl (FileNotFoundError file_path)
  | Some (Unreadable err) => inl (OSError err)
  | Some (NotJson err) => inl (JSONDecodeError err)
  | Some data => inr data
  end.

(** The [try] block of lines 310-318. *)
Definition load_conversations (w : World) (file_path : string)
    : exn + list Conversation :=
  match json_load w file_path with
  | inl e => inl e
  | inr (JsonDict (Some conversations)) => inr conversations
  | inr (JsonList data) => inr data
  | inr _ => inl (ValueError "Invalid conversation format")
  end.

(** The dispatch of lines 324-332; [None] is the last branch. *)
Definition apply_strategy (py : Interpreter) (self : ChunkerEngine)
    (strategy : string) (conversations : list Conversation) (max_tokens : Z)
    : option (list Chunk) :=
  if bool_decide (strategy = "size") then
    Some (chunk_by_size self conversations max_tokens)
  else if bool_decide (strategy = "topic") then
    Some (chunk_by_topic py self conversations max_tokens)
  else if bool_decide (strategy = "role") then
    Some (chunk_by_role self conversations max_tokens)
  else None.

(** Lines 335-338. *)
Definition output_file_name (self : ChunkerEngine) (file_path strategy : string)
    : string :=
  let base_name := Path.basename file_path in
  let name_parts := Path.splitext base_name in
  Path.join (output_dir self)
    (name_parts.1 +:+ "_chunked_" +:+ strategy +:+ name_parts.2).

Definition processing_result (file_path strategy : string) (max_tokens : Z)
    (chunks : list Chunk) : ProcessingResult :=
  {| chunks := chunks;
     original_file := file_path;
     chunking_strategy := strategy;
     max_tokens_per_chunk := max_tokens;
     total_chunks := Z.of_nat (length chunks);
     total_conversations :=
       foldr Z.add 0 ((fun chunk => Z.of_nat (length (conversations chunk))) <$> chunks) |}.

(** [ChunkerEngine.process_file].  The result is the world afterwards and
    either an exception that leaves the method ([inl]) or the value it
    returns ([inr]), where [None] is Python's [None].  The [try] of lines
    309-321 covers the load only: when the [open] of line 341 raises,
    nothing has been written and the exception leaves the method. *)
Definition process_file (py : Interpreter) (self : ChunkerEngine) (w : World)
    (file_path : string) (strategy : string) (max_tokens : Z)
    : World * (exn + option string) :=
  match load_conversations w file_path with
  | inl e => (print ("Error loading conversations: " +:+ exn_str e) w, inr None)
  | inr conversations =>
      match apply_strategy py self strategy conversations max_tokens with
      | None => (print ("Unknown chunking strategy: " +:+ strategy) w, inr None)
      | Some chunks =>
          let output_file := output_file_name self file_path strategy in
          match write_error w output_file with
          | Some msg => (w, inl (OSError msg))
          | None =>
              (write_file output_file
                 (JsonResult (processing_result file_path strategy max_tokens chunks)) w,
               inr (Some output_file))
          end
      end
  end.

(** ** Notions the properties are stated with *)

(** The sum of a cost over a list. *)
Definition sum_tokens {A : Type} (cost : A -> Z) (l : list A) : Z :=
  foldr (fun x acc => cost x + acc) 0 l.

(** A packed chunk holds whole entries and counts the cost of their
    serialisations; it is within the budget unless it holds a single
    entry. *)
Definition packed (self : ChunkerEngine) (max_tokens : Z) (chunk : Chunk) : Prop :=
  conversations chunk <> []
  /\ token_count chunk = sum_tokens (conv_tokens self) (conversations chunk)
  /\ (token_count chunk <= max_tokens \/ exists entry, conversations chunk = [entry]).

(** How a chunk was made: packed, or split.  A split chunk holds one
    marked copy with a run of messages and counts the cost of the
    serialisations of these messages; it is within the budget unless the
    run is a single message. *)
Inductive chunk_shape (self : ChunkerEngine) (max_tokens : Z) (chunk : Chunk) : Prop :=
  | packed_shape :
      packed self max_tokens chunk ->
      chunk_shape self max_tokens chunk
  | split_shape (entry : Conversation) (ms : list Message) :
      conversations chunk = [entry] ->
      messages entry = Some ms ->
      ms <> [] ->
      (_chunked entry = true \/ _chunked_by_role entry = true) ->
      token_count chunk = sum_tokens (msg_tokens self) ms ->
      (token_count chunk <= max_tokens \/ exists msg, ms = [msg]) ->
      chunk_shape self max_tokens chunk.

(** What the split loop needs of the chunk it stores: one marked copy
    with the run, and the count it is given. *)
Definition is_piece (emit : list Message -> Z -> Chunk) : Prop :=
  forall ms tokens, exists entry,
    conversations (emit ms tokens) = [entry]
    /\ messages entry = Some ms
    /\ (_chunked entry = true \/ _chunked_by_role entry = true)
    /\ token_count (emit ms tokens) = tokens.

(** The invariant of the split loop. *)
Definition split_inv (self : ChunkerEngine) (max_tokens : Z) (st : split_state) : Prop :=
  let '(chunks, temp_messages, temp_tokens) := st in
  Forall (chunk_shape self max_tokens) chunks
  /\ temp_tokens = sum_tokens (msg_tokens self) temp_messages
  /\ (temp_messages = [] \/ temp_tokens <= max_tokens
      \/ exists msg, temp_messages = [msg]).

(** The invariant of the packing loops of the size and role strategies. *)
Definition pack_inv (self : ChunkerEngine) (max_tokens : Z) (st : pack_state) : Prop :=
  let '(chunks, current_chunk, current_tokens) := st in
  Forall (chunk_shape self max_tokens) chunks
  /\ current_tokens = sum_tokens (conv_tokens self) current_chunk
  /\ (current_chunk = [] \/ current_tokens <= max_tokens).

(** The invariant of the scan for similar topics: the cluster is not
    empty, its count is the cost of its members, and it is within the
    budget unless it is only the seed. *)
Definition scan_inv (self : ChunkerEngine) (max_tokens : Z)
    (conversations : list Conversation) (st : scan_state) : Prop :=
  let '(cluster, assigned, cluster_tokens) := st in
  cluster <> []
  /\ cluster_tokens
     = sum_tokens (conv_tokens self) ((fun i => conversations !!! i) <$> cluster)
  /\ (cluster_tokens <= max_tokens \/ exists i, cluster = [i]).

(** The indices of all clusters, in emitted order. *)
Definition clustered (clusters : list Cluster) : list nat :=
  concat (indices <$> clusters).

(** [assigned] marks exactly the indices in [members], each of which
    occurs once. *)
Definition assignment_inv (n : nat) (members : list nat) (assigned : list bool)
    : Prop :=
  length assigned = n
  /\ NoDup members
  /\ forall k : nat, assigned !! k = Some true <-> k ∈ members.

(** *** The token budget *)

(** The one way a chunk exceeds the budget: it holds a single entry whose
    own cost exceeds the budget, and it counts either that entry or the
    single message of that entry, whose own cost exceeds the budget
    too. *)
Definition single_oversized (self : ChunkerEngine) (max_tokens : Z) (chunk : Chunk)
    : Prop :=
  exists entry, conversations chunk = [entry]
    /\ max_tokens < conv_tokens self entry
    /\ (token_count chunk = conv_tokens self entry
        \/ exists msg, messages entry = Some [msg]
             /\ max_tokens < msg_tokens self msg
             /\ token_count chunk = msg_tokens self msg).

Definition within_budget (self : ChunkerEngine) (max_tokens : Z) (chunk : Chunk)
    : Prop :=
  token_count chunk <= max_tokens \/ single_oversized self max_tokens chunk.

(** *** Token accounting *)

(** The count is the cost of the serialisations of the entries. *)
Definition counts_entries (self : ChunkerEngine) (chunk : Chunk) : Prop :=
  token_count chunk = sum_tokens (conv_tokens self) (conversations chunk).

(** *** Messages in and out *)

(** The messages of a list of entries, in order. *)
Definition all_messages (convs : list Conversation) : list Message :=
  concat (get_messages <$> convs).

(** The messages of the entries of all chunks, in emitted order. *)
Definition emitted_messages (chunks : list Chunk) : list Message :=
  concat ((fun chunk => all_messages (conversations chunk)) <$> chunks).

(** The number of messages of a list of entries, and of all chunks. *)
Definition message_count (convs : list Conversation) : nat :=
  sum_list_with (fun conv => length (get_messages conv)) convs.

Definition emitted_message_count (chunks : list Chunk) : nat :=
  sum_list_with (fun chunk => message_count (conversations chunk)) chunks.

(** Every message of every conversation fits the budget on its own. *)
Definition messages_fit (self : ChunkerEngine) (max_tokens : Z)
    (convs : list Conversation) : Prop :=
  Forall (fun conv =>
            Forall (fun msg => msg_tokens self msg <= max_tokens) (get_messages conv))
    convs.

(** The messages a loop has stored or still holds, in order. *)
Definition split_state_messages (st : split_state) : list Message :=
  emitted_messages st.1.1 ++ st.1.2.

Definition pack_state_messages (st : pack_state) : list Message :=
  emitted_messages st.1.1 ++ all_messages st.1.2.

Definition group_state_messages (st : group_state) : list Message :=
  concat st.1.1 ++ st.2.

(** *** The file driver *)

(** A loaded value that is neither a list nor an object with the key
    [conversations]. *)
Definition invalid_collection (data : File) : Prop :=
  match data with
  | JsonScalar | JsonDict None | JsonResult _ => True
  | Unreadable _ | NotJson _ | JsonList _ | JsonDict (Some _) => False
  end.

(** The two calls [process_file] turns down, each with the line it
    prints: the file holds a value that is neither a list nor an object
    with the key [conversations], whatever the strategy name; or the
    conversations load and the strategy name is outside size, topic and
    role. *)
Inductive rejected (w : World) (file_path strategy : string) : string -> Prop :=
  | rejected_collection (data : File) :
      files w !! file_path = Some data ->
      invalid_collection data ->
      rejected w file_path strategy
        "Error loading conversations: Invalid conversation format"
  | rejected_strategy (convs : list Conversation) :
      load_conversations w file_path = inr convs ->
      strategy ∉ ["size"; "topic"; "role"] ->
      rejected w file_path strategy ("Unknown chunking strategy: " +:+ strategy).

(** ** Sample inputs *)

Module Sample.

Definition engine : ChunkerEngine := {| output_dir := "processed" |}.

(** An interpreter whose sets keep the order of first occurrence. *)
Definition interp : Interpreter :=
  {| set_layout := remove_dups;
     set_layout_distinct := fun l => reflexivity (remove_dups l) |}.

Definition user_msg (text : string) : Message :=
  {| role := Some "user"; content := Some text; timestamp := None |}.

Definition assistant_msg (text : string) : Message :=
  {| role := Some "assistant"; content := Some text; timestamp := None |}.

Definition conv_of (ms : list Message) : Conversation :=
  {| conv_id := None; title := None; messages := Some ms;
     _chunked := false; _chunked_by_role := false |}.

(** A text of [n] characters. *)
Fixpoint filler (n : nat) : string :=
  match n with
  | O => ""
  | S n' => String "x" (filler n')
  end.

(** A message of 33 characters, 8 tokens. *)
Definition hi : Message := user_msg "hi".

(** A message of 56 characters, 14 tokens. *)
Definition long_msg : Message := user_msg "hello world, this is long".

(** Two assistant messages of 15 tokens each. *)
Definition reply1 : Message := assistant_msg "hello world, this is long".
Definition reply2 : Message := assistant_msg "and another long message".

(** A message of 1200 characters, 300 tokens. *)
Definition msg300 : Message := user_msg (filler 1169).

(** Ten messages of 300 tokens each; the conversation takes 12034
    characters, 3008 tokens. *)
Definition scenario_C : Conversation := conv_of (replicate 10 msg300).

Definition world_with (data : File) : World :=
  {| files := {[ "in.json" := data ]}; stdout := [];
     write_error := fun _ => None |}.


End Sample.

(** ** Notions for further properties *)

(** [run] is a stretch of neighbours of [all], in order. *)
Definition run_of {A : Type} (run all : list A) : Prop :=
  exists pre post, all = pre ++ run ++ post.

(** What the size strategy stores: a packed chunk holds a stretch of
    neighbouring input conversations, each within the budget, and counts
    their cost, within the budget; a split chunk holds a copy of an input
    conversation that is over the budget, with a stretch of its
    neighbouring messages, and counts the cost of these messages. *)
Inductive size_emitted (self : ChunkerEngine) (max_tokens : Z)
    (convs : list Conversation) : Chunk -> Prop :=
  | size_emitted_packed (entries : list Conversation) :
      entries <> [] ->
      run_of entries convs ->
      Forall (fun conv => conv_tokens self conv <= max_tokens) entries ->
      sum_tokens (conv_tokens self) entries <= max_tokens ->
      size_emitted self max_tokens convs
        (size_chunk entries (sum_tokens (conv_tokens self) entries))
  | size_emitted_split (conv : Conversation) (ms : list Message) :
      conv ∈ convs ->
      max_tokens < conv_tokens self conv ->
      ms <> [] ->
      run_of ms (get_messages conv) ->
      size_emitted self max_tokens convs
        (size_piece conv ms (sum_tokens (msg_tokens self) ms)).

(** An entry of the role strategy made from a role group that fits. *)
Definition role_entry (self : ChunkerEngine) (max_tokens : Z)
    (convs : list Conversation) (entry : Conversation) : Prop :=
  exists conv group,
    conv ∈ convs
    /\ group ∈ role_groups_of (get_messages conv)
    /\ entry = role_copy conv group
    /\ conv_tokens self entry <= max_tokens.

(** What the role strategy stores. *)
Inductive role_emitted (self : ChunkerEngine) (max_tokens : Z)
    (convs : list Conversation) : Chunk -> Prop :=
  | role_emitted_packed (entries : list Conversation) :
      entries <> [] ->
      Forall (role_entry self max_tokens convs) entries ->
      sum_tokens (conv_tokens self) entries <= max_tokens ->
      role_emitted self max_tokens convs
        (role_chunk entries (sum_tokens (conv_tokens self) entries))
  | role_emitted_split (conv : Conversation) (group ms : list Message) :
      conv ∈ convs ->
      group ∈ role_groups_of (get_messages conv) ->
      max_tokens < conv_tokens self (role_copy conv group) ->
      ms <> [] ->
      run_of ms group ->
      role_emitted self max_tokens convs
        (role_piece conv ms (sum_tokens (msg_tokens self) ms)).

(** The invariant of the size loop once the conversations [done] have
    been read. *)
Definition size_run_inv (self : ChunkerEngine) (max_tokens : Z)
    (convs done : list Conversation) (st : pack_state) : Prop :=
  let '(chunks, current_chunk, current_tokens) := st in
  Forall (size_emitted self max_tokens convs) chunks
  /\ (exists pre, done = pre ++ current_chunk)
  /\ Forall (fun conv => conv_tokens self conv <= max_tokens) current_chunk
  /\ current_tokens = sum_tokens (conv_tokens self) current_chunk
  /\ (current_chunk = [] \/ current_tokens <= max_tokens).

(** The invariant of the role loop. *)
Definition role_run_inv (self : ChunkerEngine) (max_tokens : Z)
    (convs : list Conversation) (st : pack_state) : Prop :=
  let '(chunks, current_chunk, current_tokens) := st in
  Forall (role_emitted self max_tokens convs) chunks
  /\ Forall (role_entry self max_tokens convs) current_chunk
  /\ current_tokens = sum_tokens (conv_tokens self) current_chunk
  /\ (current_chunk = [] \/ current_tokens <= max_tokens).

(** No chunk could have taken the first entry of the chunk after it: the
    two together are over the budget. *)
Fixpoint could_not_merge (self : ChunkerEngine) (max_tokens : Z)
    (chunks : list Chunk) : Prop :=
  match chunks with
  | chunk1 :: ((chunk2 :: _) as rest) =>
      (exists conv, head (conversations chunk2) = Some conv
         /\ max_tokens < token_count chunk1 + conv_tokens self conv)
      /\ could_not_merge self max_tokens rest
  | _ => True
  end.

(** The invariant of the size loop when no conversation is over the
    budget and the conversations [done] have been read. *)
Definition size_whole_inv (self : ChunkerEngine) (max_tokens : Z)
    (done : list Conversation) (st : pack_state) : Prop :=
  let '(chunks, current_chunk, current_tokens) := st in
  concat (conversations <$> chunks) ++ current_chunk = done
  /\ could_not_merge self max_tokens chunks
  /\ (current_chunk = [] -> chunks = [])
  /\ (forall chunk conv,
        last chunks = Some chunk -> head current_chunk = Some conv ->
        max_tokens < token_count chunk + conv_tokens self conv).

(** All messages of a group have one role. *)
Definition same_role (group : list Message) : Prop :=
  forall msg1 msg2, msg1 ∈ group -> msg2 ∈ group -> role msg1 = role msg2.

(** No message of a group has the role of a message of the group after
    it. *)
Fixpoint roles_alternate (groups : list (list Message)) : Prop :=
  match groups with
  | group1 :: ((group2 :: _) as rest) =>
      (forall msg1 msg2, msg1 ∈ group1 -> msg2 ∈ group2 -> role msg1 <> role msg2)
      /\ roles_alternate rest
  | _ => True
  end.

(** The invariant of the grouping loop. *)
Definition group_inv (st : group_state) : Prop :=
  let '(role_groups, current_role, current_group) := st in
  Forall (fun group => group <> []) role_groups
  /\ Forall same_role role_groups
  /\ roles_alternate role_groups
  /\ Forall (fun msg => role msg = current_role) current_group
  /\ (current_group = [] -> role_groups = [])
  /\ (forall group msg,
        last role_groups = Some group -> msg ∈ group -> role msg <> current_role).

(** The state of a packing loop with [pre] put before its chunks. *)
Definition with_chunks_before (pre : list Chunk) (st : pack_state) : pack_state :=
  (pre ++ st.1.1, st.1.2, st.2).

Definition split_with_chunks_before (pre : list Chunk) (st : split_state)
    : split_state :=
  (pre ++ st.1.1, st.1.2, st.2).

(** The make of a cluster: a seed, then indices after the seed in
    ascending order, each with a topic similar to the topic of the
    seed. *)
Definition cluster_structure (py : Interpreter) (topics : list string) (n : nat)
    (cluster : list nat) : Prop :=
  exists i picked,
    cluster = i :: picked
    /\ (i < n)%nat
    /\ picked `sublist_of` seq (S i) (n - S i)
    /\ Forall (fun j => similar py (topics !!! i) (topics !!! j) = true) picked.

(** The first index of a cluster. *)
Definition seed_of (cluster : Cluster) : option nat := head (indices cluster).


(** ** The recall tester ([src/cli/recall_tester.py])

    It reads the chunks [process_file] wrote and ranks them against a
    query. *)

Record RecallTester := { memory_dir : string }.

#[global] Instance Chunk_inhabited : Inhabited Chunk :=
  populate {| conversations := []; token_count := 0; chunk_strategy := "" |}.

(** [a.union(b)] on two sets. *)
Definition set_or (py : Interpreter) (a b : list string) : list string :=
  set_layout py (a ++ b).

(** [RecallTester.simple_similarity] (lines 55-70).  The result is the
    quotient [intersection / max(1, union)]; it is kept as the pair of
    the two integers, and two results are compared as the quotients are
    (the float division is correctly rounded, so for sets of fewer than
    2^26 words two quotients compare as their floats do). *)
Definition simple_similarity (py : Interpreter) (self : RecallTester)
    (text1 text2 : string) : Z * Z :=
  let tokens1 := topic_words py text1 in
  let tokens2 := topic_words py text2 in
  let intersection := Z.of_nat (length (set_and tokens1 tokens2)) in
  let union := Z.of_nat (length (set_or py tokens1 tokens2)) in
  (intersection, Z.max 1 union).

(** [x < y] on two quotients with positive denominators. *)
Definition score_lt (x y : Z * Z) : bool := x.1 * y.2 <? y.1 * x.2.

(** The text of a chunk (lines 83-86): the content of every message,
    each followed by a blank. *)
Definition chunk_text (chunk : Chunk) : string :=
  fold_left
    (fun text conv =>
       fold_left (fun text msg => text +:+ (default "" (content msg) +:+ " "))
         (get_messages conv) text)
    (conversations chunk) "".

(** [scores.sort(key=lambda x: x[1], reverse=True)] (line 92): the sort
    is stable, also when reversed, so an entry goes before the first
    entry that does not score more than it. *)
Fixpoint insert_score (x : nat * (Z * Z)) (l : list (nat * (Z * Z)))
    : list (nat * (Z * Z)) :=
  match l with
  | [] => [x]
  | y :: l' => if score_lt x.2 y.2 then y :: insert_score x l' else x :: l
  end.

Definition sort_scores (l : list (nat * (Z * Z))) : list (nat * (Z * Z)) :=
  foldr insert_score [] l.

(** [l[:k]]: the first [k] elements, and for a negative [k] all but the
    last [-k]. *)
Definition slice_to {A : Type} (k : Z) (l : list A) : list A :=
  if 0 <=? k then take (Z.to_nat k) l
  else take (length l - Z.to_nat (- k)) l.

(** [RecallTester.find_relevant_chunks] (lines 72-95); [memory_data] is a
    dict of which only the key [chunks] is read, [None] when it is
    absent. *)
Definition find_relevant_chunks (py : Interpreter) (self : RecallTester)
    (query : string) (memory_data : option (list Chunk)) (top_k : Z) : list Chunk :=
  let chunks := default [] memory_data in
  match chunks with
  | [] => []
  | _ :: _ =>
      let scores :=
        imap (fun i chunk => (i, simple_similarity py self query (chunk_text chunk)))
          chunks in
      let scores := sort_scores scores in
      let top_indices := fst <$> slice_to top_k scores in
      (fun idx => chunks !!! idx) <$> top_indices
  end.

(** The score of a chunk against a query. *)
Definition chunk_score (py : Interpreter) (self : RecallTester) (query : string)
    (chunk : Chunk) : Z * Z :=
  simple_similarity py self query (chunk_text chunk).

(** [x] scores at least as much as [y]. *)
Definition score_ge (x y : Z * Z) : Prop := score_lt x y = false.

(** ** Properties of the loops *)

Lemma sum_tokens_snoc {A : Type} (cost : A -> Z) (l : list A) (x : A) :
  sum_tokens cost (l ++ [x]) = sum_tokens cost l + cost x.
Proof.
  induction l as [|y l IH]; simpl; [lia|]. rewrite IH. lia.
Qed.

Lemma size_piece_is_piece (conv : Conversation) : is_piece (size_piece conv).
Proof.
  intros ms tokens. exists (chunked_copy conv ms). simpl. auto.
Qed.

Lemma role_piece_is_piece (conv : Conversation) : is_piece (role_piece conv).
Proof.
  intros ms tokens. exists (role_copy conv ms). simpl. auto.
Qed.

Section SplitLoop.

Context (self : ChunkerEngine) (max_tokens : Z) (emit : list Message -> Z -> Chunk).
Hypothesis emit_piece : is_piece emit.

Lemma emit_shape (ms : list Message) (tokens : Z) :
  ms <> [] ->
  tokens = sum_tokens (msg_tokens self) ms ->
  (tokens <= max_tokens \/ exists msg, ms = [msg]) ->
  chunk_shape self max_tokens (emit ms tokens).
Proof.
  intros Hne Hsum Hfit.
  destruct (emit_piece ms tokens) as (entry & Hconv & Hms & Hflag & Htok).
  apply (split_shape _ _ _ entry ms); rewrite ?Htok; auto.
Qed.

Lemma split_step_inv (st : split_state) (msg : Message) :
  split_inv self max_tokens st ->
  split_inv self max_tokens (split_step self emit max_tokens st msg).
Proof.
  destruct st as [[chunks temp] tokens]. intros (Hch & Hsum & Hfit).
  unfold split_step.
  destruct (Z.ltb_spec max_tokens (tokens + msg_tokens self msg)) as [Hgt|Hle].
  - destruct temp as [|m0 temp'] eqn:Htemp.
    + repeat split; auto.
    + repeat split.
      * apply Forall_app. split; [done|]. apply Forall_singleton.
        apply emit_shape; [done|done|]. destruct Hfit as [?|[?|?]]; [done|auto|auto].
      * simpl. lia.
      * right. right. eauto.
  - split; [done|]. split.
    + rewrite sum_tokens_snoc. lia.
    + right. left. lia.
Qed.

Lemma split_fold_inv (msgs : list Message) (st : split_state) :
  split_inv self max_tokens st ->
  split_inv self max_tokens (fold_left (split_step self emit max_tokens) msgs st).
Proof.
  revert st. induction msgs as [|msg msgs IH]; intros st Hst; simpl; [done|].
  apply IH, split_step_inv, Hst.
Qed.

Lemma split_messages_shape (chunks : list Chunk) (msgs : list Message) :
  Forall (chunk_shape self max_tokens) chunks ->
  Forall (chunk_shape self max_tokens) (split_messages self emit max_tokens chunks msgs).
Proof.
  intros Hch. unfold split_messages.
  pose proof (split_fold_inv msgs (chunks, [], 0)) as Hinv.
  destruct (fold_left _ msgs _) as [[chunks' temp] tokens].
  destruct Hinv as (Hch' & Hsum & Hfit); [repeat split; auto|].
  unfold split_finish. destruct temp as [|m0 temp'] eqn:Htemp; [done|].
  apply Forall_app. split; [done|]. apply Forall_singleton.
  apply emit_shape; [done|done|]. destruct Hfit as [?|[?|?]]; [done|auto|auto].
Qed.

End SplitLoop.

Section PackLoops.

Context (self : ChunkerEngine) (max_tokens : Z).

Lemma packed_chunk_shape (convs : list Conversation) (tokens : Z) (strategy : string) :
  convs <> [] ->
  tokens = sum_tokens (conv_tokens self) convs ->
  (tokens <= max_tokens \/ exists entry, convs = [entry]) ->
  chunk_shape self max_tokens
    {| conversations := convs; token_count := tokens; chunk_strategy := strategy |}.
Proof. intros. apply packed_shape. by repeat split. Qed.

Lemma packed_chunk_packed (convs : list Conversation) (tokens : Z) (strategy : string) :
  convs <> [] ->
  tokens = sum_tokens (conv_tokens self) convs ->
  (tokens <= max_tokens \/ exists entry, convs = [entry]) ->
  packed self max_tokens
    {| conversations := convs; token_count := tokens; chunk_strategy := strategy |}.
Proof. intros. by repeat split. Qed.

Lemma pack_inv_init : pack_inv self max_tokens ([], [], 0).
Proof. repeat split; auto. Qed.

Lemma size_step_inv (st : pack_state) (conv : Conversation) :
  pack_inv self max_tokens st ->
  pack_inv self max_tokens (size_step self max_tokens st conv).
Proof.
  destruct st as [[chunks current] tokens]. intros (Hch & Hsum & Hfit).
  unfold size_step.
  destruct (Z.ltb_spec max_tokens (conv_tokens self conv)) as [Hbig|Hsmall].
  - destruct current as [|c0 current'] eqn:Hcur.
    + split; [|by auto].
      apply split_messages_shape; [apply size_piece_is_piece|done].
    + split; [|by auto].
      apply split_messages_shape; [apply size_piece_is_piece|].
      apply Forall_app. split; [done|]. apply Forall_singleton.
      apply packed_chunk_shape; [done|done|]. destruct Hfit; [done|auto].
  - destruct (Z.leb_spec (tokens + conv_tokens self conv) max_tokens) as [Hfits|Hover].
    + split; [done|]. split; [|by auto].
      rewrite sum_tokens_snoc. lia.
    + assert (current <> []) as Hne.
      { intros ->. simpl in Hsum. lia. }
      split; [|split].
      * apply Forall_app. split; [done|]. apply Forall_singleton.
        apply packed_chunk_shape; [done|done|]. destruct Hfit; [done|auto].
      * simpl. lia.
      * auto.
Qed.

Lemma role_group_step_inv (conv : Conversation) (st : pack_state)
    (group : list Message) :
  pack_inv self max_tokens st ->
  pack_inv self max_tokens (role_group_step self max_tokens conv st group).
Proof.
  destruct st as [[chunks current] tokens]. intros (Hch & Hsum & Hfit).
  unfold role_group_step.
  destruct (Z.ltb_spec max_tokens (conv_tokens self (role_copy conv group)))
    as [Hbig|Hsmall].
  - split; [|by auto].
    apply split_messages_shape; [apply role_piece_is_piece|done].
  - destruct (Z.leb_spec (tokens + conv_tokens self (role_copy conv group)) max_tokens)
      as [Hfits|Hover].
    + split; [done|]. split; [|by auto].
      rewrite sum_tokens_snoc. lia.
    + split; [|split].
      * destruct current as [|c0 current'] eqn:Hcur; [done|].
        apply Forall_app. split; [done|]. apply Forall_singleton.
        apply packed_chunk_shape; [done|done|]. destruct Hfit; [done|auto].
      * simpl. lia.
      * auto.
Qed.

Lemma size_fold_inv (convs : list Conversation) (st : pack_state) :
  pack_inv self max_tokens st ->
  pack_inv self max_tokens (fold_left (size_step self max_tokens) convs st).
Proof.
  revert st. induction convs as [|conv convs IH]; intros st Hst; simpl; [done|].
  apply IH, size_step_inv, Hst.
Qed.

Lemma role_step_inv (st : pack_state) (conv : Conversation) :
  pack_inv self max_tokens st ->
  pack_inv self max_tokens (role_step self max_tokens st conv).
Proof.
  unfold role_step. generalize (role_groups_of (get_messages conv)) as groups.
  intros groups. revert st.
  induction groups as [|group groups IH]; intros st Hst; simpl; [done|].
  apply IH, role_group_step_inv, Hst.
Qed.

Lemma role_fold_inv (convs : list Conversation) (st : pack_state) :
  pack_inv self max_tokens st ->
  pack_inv self max_tokens (fold_left (role_step self max_tokens) convs st).
Proof.
  revert st. induction convs as [|conv convs IH]; intros st Hst; simpl; [done|].
  apply IH, role_step_inv, Hst.
Qed.

Lemma pack_finish_shape (strategy : string) (st : pack_state) :
  pack_inv self max_tokens st ->
  Forall (chunk_shape self max_tokens)
    (pack_finish
       (fun convs tokens =>
          {| conversations := convs; token_count := tokens;
             chunk_strategy := strategy |}) st).
Proof.
  destruct st as [[chunks current] tokens]. intros (Hch & Hsum & Hfit).
  unfold pack_finish. destruct current as [|c0 current'] eqn:Hcur; [done|].
  apply Forall_app. split; [done|]. apply Forall_singleton.
  apply packed_chunk_shape; [done|done|]. destruct Hfit; [done|auto].
Qed.

Lemma chunk_by_size_shape (conversations : list Conversation) :
  Forall (chunk_shape self max_tokens) (chunk_by_size self conversations max_tokens).
Proof. apply (pack_finish_shape "size"), size_fold_inv, pack_inv_init. Qed.

Lemma chunk_by_role_shape (conversations : list Conversation) :
  Forall (chunk_shape self max_tokens) (chunk_by_role self conversations max_tokens).
Proof. apply (pack_finish_shape "role"), role_fold_inv, pack_inv_init. Qed.

End PackLoops.

Section TopicLoops.

Context (py : Interpreter) (self : ChunkerEngine) (max_tokens : Z).
Context (conversations : list Conversation).
Context (topics : list string).

Lemma scan_step_inv (i j : nat) (st : scan_state) :
  scan_inv self max_tokens conversations st ->
  scan_inv self max_tokens conversations
    (scan_step py self conversations topics max_tokens i st j).
Proof.
  destruct st as [[cluster assigned] tokens]. intros (Hne & Hsum & Hfit).
  unfold scan_step.
  destruct (assigned !!! j); [done|].
  destruct (similar _ _); [|done].
  destruct (Z.leb_spec (tokens + conv_tokens self (conversations !!! j)) max_tokens)
    as [Hfits|Hover]; [|done].
  split; [|split].
  - by destruct cluster.
  - rewrite fmap_app, list_fmap_singleton, sum_tokens_snoc. lia.
  - by left.
Qed.

Lemma scan_fold_inv (i : nat) (js : list nat) (st : scan_state) :
  scan_inv self max_tokens conversations st ->
  scan_inv self max_tokens conversations
    (fold_left (scan_step py self conversations topics max_tokens i) js st).
Proof.
  revert st. induction js as [|j js IH]; intros st Hst; simpl; [done|].
  apply IH, scan_step_inv, Hst.
Qed.

Lemma seed_step_packed (i : nat) (st : list Cluster * list bool) :
  Forall (fun cluster => packed self max_tokens (cluster_chunk conversations cluster))
    st.1 ->
  Forall (fun cluster => packed self max_tokens (cluster_chunk conversations cluster))
    (seed_step py self conversations topics max_tokens st i).1.
Proof.
  destruct st as [clusters assigned]. simpl. intros Hcl.
  unfold seed_step. destruct (assigned !!! i); [done|].
  pose proof (scan_fold_inv i (seq (S i) (length conversations - S i))
    ([i], <[i:=true]> assigned, conv_tokens self (conversations !!! i))) as Hinv.
  destruct (fold_left _ _ _) as [[cluster assigned'] tokens]. simpl.
  destruct Hinv as (Hne & Hsum & Hfit).
  { split; [done|]. split; [simpl; lia|]. right. by exists i. }
  apply Forall_app. split; [done|]. apply Forall_singleton.
  unfold cluster_chunk, topic_chunk. simpl.
  apply packed_chunk_packed; [by destruct cluster|done|].
  destruct Hfit as [?|[i0 ->]]; [by left|]. right. by eexists.
Qed.

Lemma seed_fold_packed (seeds : list nat) (st : list Cluster * list bool) :
  Forall (fun cluster => packed self max_tokens (cluster_chunk conversations cluster))
    st.1 ->
  Forall (fun cluster => packed self max_tokens (cluster_chunk conversations cluster))
    (fold_left (seed_step py self conversations topics max_tokens) seeds st).1.
Proof.
  revert st. induction seeds as [|i seeds IH]; intros st Hst; simpl; [done|].
  apply IH, seed_step_packed, Hst.
Qed.

End TopicLoops.

Lemma chunk_by_topic_packed (py : Interpreter) (self : ChunkerEngine) (max_tokens : Z)
    (conversations : list Conversation) :
  Forall (packed self max_tokens) (chunk_by_topic py self conversations max_tokens).
Proof.
  unfold chunk_by_topic, topic_clusters. apply Forall_fmap.
  apply (seed_fold_packed py self max_tokens conversations). simpl. constructor.
Qed.

Lemma chunk_by_topic_shape (py : Interpreter) (self : ChunkerEngine) (max_tokens : Z)
    (conversations : list Conversation) :
  Forall (chunk_shape self max_tokens) (chunk_by_topic py self conversations max_tokens).
Proof.
  eapply Forall_impl; [apply chunk_by_topic_packed|].
  intros chunk Hpacked. by apply packed_shape.
Qed.

Section TopicAssignment.

Context (py : Interpreter) (self : ChunkerEngine) (max_tokens : Z).
Context (conversations : list Conversation).
Context (topics : list string).

Lemma assigned_total_true (assigned : list bool) (k : nat) :
  (k < length assigned)%nat ->
  assigned !!! k = true <-> assigned !! k = Some true.
Proof.
  intros Hk. rewrite (list_lookup_lookup_total_lt assigned k Hk).
  split; [by intros ->|congruence].
Qed.

Lemma assignment_inv_mark (members : list nat) (assigned : list bool) (j : nat) :
  (j < (length conversations))%nat ->
  assigned !!! j = false ->
  assignment_inv (length conversations) members assigned ->
  assignment_inv (length conversations) (members ++ [j]) (<[j:=true]> assigned).
Proof.
  intros Hj Hfree (Hlen & Hnodup & Hmark).
  assert (j ∉ members) as Hnotin.
  { intros Hin. apply Hmark in Hin.
    apply assigned_total_true in Hin; [congruence|lia]. }
  split; [by rewrite length_insert|]. split.
  - apply NoDup_app. split; [done|]. split; [|apply NoDup_singleton].
    intros k Hk Hk'%list_elem_of_singleton. by subst k.
  - intros k. rewrite elem_of_app, list_elem_of_singleton, <- Hmark.
    destruct (decide (j = k)) as [->|Hne].
    + rewrite list_lookup_insert_eq by lia. tauto.
    + rewrite list_lookup_insert_ne by done. split; [auto|].
      intros [?|Hjk]; [done|congruence].
Qed.

Lemma mark_monotone (assigned : list bool) (j k : nat) :
  assigned !! k = Some true -> <[j:=true]> assigned !! k = Some true.
Proof.
  intros Hk. destruct (decide (j = k)) as [->|Hne].
  - apply list_lookup_insert_eq. by eapply lookup_lt_Some.
  - by rewrite list_lookup_insert_ne.
Qed.

Lemma scan_fold_assignment (prev : list nat) (i : nat) (js : list nat)
    (cluster : list nat) (assigned : list bool) (tokens : Z) :
  Forall (fun j => (j < (length conversations))%nat) js ->
  assignment_inv (length conversations) (prev ++ cluster) assigned ->
  let st := fold_left (scan_step py self conversations topics max_tokens i) js
              (cluster, assigned, tokens) in
  assignment_inv (length conversations) (prev ++ st.1.1) st.1.2
  /\ forall k : nat, assigned !! k = Some true -> st.1.2 !! k = Some true.
Proof.
  revert cluster assigned tokens.
  induction js as [|j js IH]; intros cluster assigned tokens Hjs Hinv; simpl.
  { done. }
  apply Forall_cons in Hjs as [Hj Hjs].
  unfold scan_step at 2.
  destruct (assigned !!! j) eqn:Hfree; [by apply IH|].
  destruct (similar _ _); [|by apply IH].
  destruct (_ <=? _); [|by apply IH].
  destruct (IH (cluster ++ [j]) (<[j:=true]> assigned)
              (tokens + conv_tokens self (conversations !!! j)) Hjs) as [Hinv' Hmono].
  { rewrite app_assoc. by apply assignment_inv_mark. }
  split; [done|]. intros k Hk. by apply Hmono, mark_monotone.
Qed.

Lemma seed_step_assignment (i : nat) (clusters : list Cluster) (assigned : list bool) :
  (i < (length conversations))%nat ->
  assignment_inv (length conversations) (clustered clusters) assigned ->
  let st := seed_step py self conversations topics max_tokens (clusters, assigned) i in
  assignment_inv (length conversations) (clustered st.1) st.2
  /\ (forall k : nat, assigned !! k = Some true -> st.2 !! k = Some true)
  /\ st.2 !! i = Some true.
Proof.
  intros Hi Hinv. unfold seed_step.
  destruct (assigned !!! i) eqn:Hfree.
  { simpl. split; [done|]. split; [done|].
    apply assigned_total_true; [|done]. destruct Hinv as [-> _]. done. }
  pose proof (scan_fold_assignment (clustered clusters) i
    (seq (S i) ((length conversations) - S i)) [i] (<[i:=true]> assigned)
    (conv_tokens self (conversations !!! i))) as Hscan.
  destruct (fold_left _ _ _) as [[cluster assigned'] tokens]. simpl in *.
  destruct Hscan as [Hinv' Hmono].
  { apply Forall_forall. intros j Hj%elem_of_seq. lia. }
  { by apply assignment_inv_mark. }
  split; [|split].
  - unfold clustered in *. rewrite fmap_app, concat_app. simpl.
    by rewrite app_nil_r.
  - intros k Hk. by apply Hmono, mark_monotone.
  - apply Hmono, list_lookup_insert_eq. destruct Hinv as [-> _]. done.
Qed.

Lemma seed_fold_assignment (seeds : list nat) (clusters : list Cluster)
    (assigned : list bool) :
  Forall (fun i => (i < (length conversations))%nat) seeds ->
  assignment_inv (length conversations) (clustered clusters) assigned ->
  let st := fold_left (seed_step py self conversations topics max_tokens) seeds
              (clusters, assigned) in
  assignment_inv (length conversations) (clustered st.1) st.2
  /\ (forall k : nat, assigned !! k = Some true -> st.2 !! k = Some true)
  /\ forall i : nat, i ∈ seeds -> st.2 !! i = Some true.
Proof.
  revert clusters assigned.
  induction seeds as [|i seeds IH]; intros clusters assigned Hseeds Hinv;
    cbn [fold_left].
  { split; [done|]. split; [done|]. intros i Hi. by apply elem_of_nil in Hi. }
  apply Forall_cons in Hseeds as [Hi Hseeds].
  destruct (seed_step_assignment i clusters assigned Hi Hinv) as (Hinv1 & Hmono1 & Hi1).
  destruct (seed_step py self conversations topics max_tokens (clusters, assigned) i)
    as [clusters1 assigned1]. cbn [fst snd] in Hinv1, Hmono1, Hi1.
  destruct (IH clusters1 assigned1 Hseeds Hinv1) as (Hinv2 & Hmono2 & Hall2).
  split; [done|]. split; [by auto|].
  intros k [->|Hk]%elem_of_cons; [by apply Hmono2|by apply Hall2].
Qed.

End TopicAssignment.

Lemma topic_clusters_permutation (py : Interpreter) (self : ChunkerEngine)
    (conversations : list Conversation) (max_tokens : Z) :
  clustered (topic_clusters py self conversations max_tokens)
  ≡ₚ seq 0 (length conversations).
Proof.
  unfold topic_clusters.
  pose proof (seed_fold_assignment py self max_tokens conversations
    (topic_signal <$> conversations) (seq 0 (length conversations)) []
    (replicate (length conversations) false)) as Hfold.
  destruct (fold_left _ _ _) as [clusters assigned]. simpl in *.
  destruct Hfold as ((Hlen & Hnodup & Hmark) & _ & Hall).
  { apply Forall_forall. intros i Hi%elem_of_seq. lia. }
  { split; [by rewrite length_replicate|]. split; [constructor|].
    intros k. rewrite lookup_replicate. split; [intros [? _]; done|].
    intros Hk. by apply elem_of_nil in Hk. }
  apply NoDup_Permutation; [done|apply NoDup_seq|].
  intros k. rewrite <- Hmark, elem_of_seq. split.
  - intros Hk%lookup_lt_Some. lia.
  - intros Hk. apply Hall, elem_of_seq. lia.
Qed.

(** ** The cost of a conversation with messages *)

Lemma string_length_app (s1 s2 : string) :
  String.length (s1 +:+ s2) = (String.length s1 + String.length s2)%nat.
Proof. induction s1 as [|c s1 IH]; simpl; [done|]. by rewrite IH. Qed.

Lemma sum_list_with_fmap {A B : Type} (f : B -> nat) (g : A -> B) (l : list A) :
  sum_list_with f (g <$> l) = sum_list_with (fun x => f (g x)) l.
Proof.
  induction l as [|x l IH]; [done|].
  rewrite fmap_cons. cbn [sum_list_with]. by rewrite IH.
Qed.

Lemma concat_length (sep : string) (l : list string) :
  l <> [] ->
  (String.length (String.concat sep l) + String.length sep
   = sum_list_with (fun x => String.length x + String.length sep) l)%nat.
Proof.
  induction l as [|x l IH]; [done|]. intros _.
  destruct l as [|y l]; [simpl; lia|].
  specialize (IH ltac:(done)).
  change (String.concat sep (x :: y :: l))
    with (x +:+ sep +:+ String.concat sep (y :: l)).
  rewrite !string_length_app.
  set (rest := String.concat sep (y :: l)) in *.
  cbn [sum_list_with] in *. lia.
Qed.

Lemma concat_length_member (sep : string) (l : list string) (x : string) :
  x ∈ l -> (String.length x <= String.length (String.concat sep l))%nat.
Proof.
  intros Hx. assert (l <> []) as Hne.
  { intros ->. by apply elem_of_nil in Hx. }
  pose proof (concat_length sep l Hne) as Hlen.
  assert (String.length x + String.length sep
          <= sum_list_with (fun x => String.length x + String.length sep) l)%nat
    as Hsum; [|lia].
  clear Hlen Hne. induction Hx as [x l|x y l Hx IH]; cbn [sum_list_with]; lia.
Qed.

(** The text of a conversation holds the texts of its messages, two
    separator characters between neighbours, and at least 14 more
    characters: the braces, the key, the colon and the brackets. *)
Lemma conversation_text_bound (conv : Conversation) (ms : list Message) :
  messages conv = Some ms ->
  ms <> [] ->
  (sum_list_with (fun msg => String.length (dumps_message msg) + 2) ms + 14
   <= String.length (dumps_conversation conv))%nat.
Proof.
  intros Hms Hne. unfold dumps_conversation, Json.dumps_object. rewrite Hms.
  set (item := Json.dumps_item "messages" (Json.dumps_array (dumps_message <$> ms))).
  set (items := _ ++ _).
  assert (item ∈ items) as Hin.
  { unfold items. cbn [Json.opt_item]. fold item. set_solver. }
  apply (concat_length_member ", ") in Hin.
  rewrite !string_length_app.
  change (String.length "{") with 1%nat. change (String.length "}") with 1%nat.
  assert (String.length item
          = sum_list_with (fun msg => String.length (dumps_message msg) + 2) ms + 12)%nat
    as Hitem; [|lia].
  unfold item, Json.dumps_item, Json.dumps_array.
  rewrite !string_length_app.
  pose proof (concat_length ", " (dumps_message <$> ms)) as Hconcat.
  rewrite sum_list_with_fmap in Hconcat.
  change (String.length ", ") with 2%nat in Hconcat.
  change (String.length (Json.dumps_str "messages")) with 10%nat.
  change (String.length ": ") with 2%nat.
  change (String.length "[") with 1%nat.
  change (String.length "]") with 1%nat.
  specialize (Hconcat ltac:(by destruct ms)). cbv beta in Hconcat. lia.
Qed.

(** A conversation costs at least as much as its only message. *)
Lemma single_message_cost_le (self : ChunkerEngine) (entry : Conversation)
    (msg : Message) :
  messages entry = Some [msg] ->
  msg_tokens self msg <= conv_tokens self entry.
Proof.
  intros Hms.
  pose proof (conversation_text_bound entry [msg] Hms ltac:(done)) as Hbound.
  cbn [sum_list_with] in Hbound.
  unfold msg_tokens, conv_tokens, count_tokens.
  apply Z.div_le_mono; lia.
Qed.

(** ** The three strategies *)

Lemma apply_strategy_cases (py : Interpreter) (self : ChunkerEngine) (strategy : string)
    (conversations : list Conversation) (max_tokens : Z) (chunks : list Chunk) :
  apply_strategy py self strategy conversations max_tokens = Some chunks ->
  (strategy = "size" /\ chunks = chunk_by_size self conversations max_tokens)
  \/ (strategy = "topic" /\ chunks = chunk_by_topic py self conversations max_tokens)
  \/ (strategy = "role" /\ chunks = chunk_by_role self conversations max_tokens).
Proof.
  unfold apply_strategy. repeat case_bool_decide; intros Heq; simplify_eq; auto.
Qed.

Lemma apply_strategy_shape (py : Interpreter) (self : ChunkerEngine) (strategy : string)
    (conversations : list Conversation) (max_tokens : Z) (chunks : list Chunk) :
  apply_strategy py self strategy conversations max_tokens = Some chunks ->
  Forall (chunk_shape self max_tokens) chunks.
Proof.
  intros [[_ ->]|[[_ ->]|[_ ->]]]%apply_strategy_cases.
  - apply chunk_by_size_shape.
  - apply chunk_by_topic_shape.
  - apply chunk_by_role_shape.
Qed.

Lemma chunk_shape_within_budget (self : ChunkerEngine) (max_tokens : Z)
    (chunk : Chunk) :
  chunk_shape self max_tokens chunk -> within_budget self max_tokens chunk.
Proof.
  unfold within_budget.
  intros [(Hne & Hsum & [Hfit|[entry Hone]])
         |entry ms Hone Hms Hne Hflag Hsum [Hfit|[msg ->]]]; [by left| |by left|].
  - destruct (Z.le_gt_cases (token_count chunk) max_tokens) as [Hle|Hgt]; [by left|].
    right. exists entry. rewrite Hone in Hsum. simpl in Hsum.
    split; [done|]. split; [lia|]. left. lia.
  - destruct (Z.le_gt_cases (token_count chunk) max_tokens) as [Hle|Hgt]; [by left|].
    right. exists entry. simpl in Hsum.
    pose proof (single_message_cost_le self entry msg Hms) as Hcost.
    split; [done|]. split; [lia|]. right. exists msg.
    split; [done|]. lia.
Qed.

Lemma chunk_shape_nonempty (self : ChunkerEngine) (max_tokens : Z) (chunk : Chunk) :
  chunk_shape self max_tokens chunk -> conversations chunk <> [].
Proof.
  intros [(Hne & _)|entry ms Hone _ _ _ _ _]; [done|by rewrite Hone].
Qed.

(** C1.  Whatever the strategy, for every list of conversations and
    every positive budget, each chunk produced has a token count within
    the budget, unless it holds exactly one entry whose own cost exceeds
    the budget and counts either that entry or the single message of that
    entry, a run whose own cost exceeds the budget. *)
Theorem token_budget (py : Interpreter) (self : ChunkerEngine) (strategy : string)
    (conversations : list Conversation) (max_tokens : Z) (chunks : list Chunk) :
  0 < max_tokens ->
  apply_strategy py self strategy conversations max_tokens = Some chunks ->
  Forall (within_budget self max_tokens) chunks.
Proof.
  intros _ Hrun. eapply Forall_impl; [by eapply apply_strategy_shape|].
  apply chunk_shape_within_budget.
Qed.

Lemma token_budget_witness :
  0 < 10
  /\ Forall (within_budget Sample.engine 10)
       (chunk_by_size Sample.engine
          [Sample.conv_of [Sample.hi; Sample.long_msg; Sample.hi]] 10).
Proof.
  split; [lia|].
  apply (token_budget Sample.interp Sample.engine "size"
           [Sample.conv_of [Sample.hi; Sample.long_msg; Sample.hi]] 10);
    [lia|reflexivity].
Defined.

(** C10.  Whatever the strategy, for every list of conversations and
    every positive budget, no chunk produced has an empty list of
    conversations. *)
Theorem chunks_nonempty (py : Interpreter) (self : ChunkerEngine) (strategy : string)
    (convs : list Conversation) (max_tokens : Z) (chunks : list Chunk) :
  0 < max_tokens ->
  apply_strategy py self strategy convs max_tokens = Some chunks ->
  Forall (fun chunk => conversations chunk <> []) chunks.
Proof.
  intros _ Hrun. eapply Forall_impl; [by eapply apply_strategy_shape|].
  apply chunk_shape_nonempty.
Qed.

Lemma chunks_nonempty_witness :
  0 < 30
  /\ Forall (fun chunk => conversations chunk <> [])
       (chunk_by_role Sample.engine
          [Sample.conv_of [Sample.hi; Sample.reply1; Sample.reply2]] 30).
Proof.
  split; [lia|].
  apply (chunks_nonempty Sample.interp Sample.engine "role"
           [Sample.conv_of [Sample.hi; Sample.reply1; Sample.reply2]] 30);
    [lia|reflexivity].
Defined.

(** ** Topic clusters *)

Lemma lookup_total_seq (l : list Conversation) :
  (fun i => l !!! i) <$> seq 0 (length l) = l.
Proof.
  apply list_eq. intros i. rewrite list_lookup_fmap.
  destruct (decide (i < length l)%nat) as [Hlt|Hge].
  - rewrite lookup_seq_lt by done. simpl.
    by rewrite (list_lookup_lookup_total_lt l i Hlt).
  - rewrite lookup_seq_ge by lia. simpl. symmetry. apply lookup_ge_None. lia.
Qed.

Lemma cluster_chunks_conversations (convs : list Conversation)
    (clusters : list Cluster) :
  concat (conversations <$> (cluster_chunk convs <$> clusters))
  = (fun i => convs !!! i) <$> clustered clusters.
Proof.
  unfold clustered. induction clusters as [|cluster clusters IH]; [done|].
  rewrite !fmap_cons. cbn [concat]. by rewrite IH, fmap_app.
Qed.

(** C7.  Under the topic strategy the indices of all clusters, taken
    together, are the indices of the input, each exactly once; the chunks
    are the clusters in order, and so the entries of all chunks are the
    input conversations, each exactly once. *)
Theorem topic_assignment (py : Interpreter) (self : ChunkerEngine)
    (convs : list Conversation) (max_tokens : Z) :
  clustered (topic_clusters py self convs max_tokens) ≡ₚ seq 0 (length convs)
  /\ chunk_by_topic py self convs max_tokens
     = cluster_chunk convs <$> topic_clusters py self convs max_tokens
  /\ concat (conversations <$> chunk_by_topic py self convs max_tokens) ≡ₚ convs.
Proof.
  pose proof (topic_clusters_permutation py self convs max_tokens) as Hperm.
  split; [done|]. split; [done|].
  unfold chunk_by_topic. rewrite cluster_chunks_conversations, Hperm.
  by rewrite lookup_total_seq.
Qed.

(** ** Determinism *)

Lemma fold_left_pointwise {A B : Type} (f g : A -> B -> A) (l : list B) (a : A) :
  (forall x y, f x y = g x y) -> fold_left f l a = fold_left g l a.
Proof.
  intros Hfg. revert a. induction l as [|y l IH]; intros a; simpl; [done|].
  by rewrite Hfg, IH.
Qed.

Lemma topic_words_interp (py1 py2 : Interpreter) (topic : string) :
  topic_words py1 topic ≡ₚ topic_words py2 topic.
Proof. unfold topic_words. by rewrite !set_layout_distinct. Qed.

Lemma set_and_interp (a1 a2 b1 b2 : list string) :
  a1 ≡ₚ a2 -> b1 ≡ₚ b2 -> set_and a1 b1 ≡ₚ set_and a2 b2.
Proof.
  intros Ha Hb. unfold set_and. rewrite Ha.
  erewrite list_filter_iff; [done|].
  intros word. simpl. by rewrite Hb.
Qed.

(** Whether two topics are similar does not depend on the order in which
    the interpreter holds the words of a set. *)
Lemma similar_interp (py1 py2 : Interpreter) (topic_i topic_j : string) :
  similar py1 topic_i topic_j = similar py2 topic_i topic_j.
Proof.
  unfold similar.
  rewrite (Permutation_length (topic_words_interp py1 py2 topic_i)).
  rewrite (Permutation_length
             (set_and_interp _ _ _ _ (topic_words_interp py1 py2 topic_i)
                (topic_words_interp py1 py2 topic_j))).
  done.
Qed.

Lemma scan_step_interp (py1 py2 : Interpreter) (self1 self2 : ChunkerEngine)
    (convs : list Conversation) (topics : list string) (max_tokens : Z) (i : nat)
    (st : scan_state) (j : nat) :
  scan_step py1 self1 convs topics max_tokens i st j
  = scan_step py2 self2 convs topics max_tokens i st j.
Proof.
  unfold scan_step. destruct st as [[cluster assigned] tokens].
  by rewrite (similar_interp py1 py2).
Qed.

Lemma seed_step_interp (py1 py2 : Interpreter) (self1 self2 : ChunkerEngine)
    (convs : list Conversation) (topics : list string) (max_tokens : Z)
    (st : list Cluster * list bool) (i : nat) :
  seed_step py1 self1 convs topics max_tokens st i
  = seed_step py2 self2 convs topics max_tokens st i.
Proof.
  unfold seed_step. destruct st as [clusters assigned].
  rewrite (fold_left_pointwise
             (scan_step py1 self1 convs topics max_tokens i)
             (scan_step py2 self2 convs topics max_tokens i)); [done|].
  intros st j. apply scan_step_interp.
Qed.

Lemma chunk_by_topic_interp (py1 py2 : Interpreter) (self1 self2 : ChunkerEngine)
    (convs : list Conversation) (max_tokens : Z) :
  chunk_by_topic py1 self1 convs max_tokens = chunk_by_topic py2 self2 convs max_tokens.
Proof.
  unfold chunk_by_topic, topic_clusters.
  rewrite (fold_left_pointwise
             (seed_step py1 self1 convs (topic_signal <$> convs) max_tokens)
             (seed_step py2 self2 convs (topic_signal <$> convs) max_tokens));
    [done|].
  intros st i. apply seed_step_interp.
Qed.

(** C8.  The chunk list a strategy returns is a function of the
    conversations and the budget alone: it is the same in any two runs,
    whatever the engine instances and whatever the interpreters, whose
    hash seeds differ from one process to the next. *)
Theorem strategies_deterministic (py1 py2 : Interpreter)
    (self1 self2 : ChunkerEngine) (convs : list Conversation) (max_tokens : Z) :
  chunk_by_size self1 convs max_tokens = chunk_by_size self2 convs max_tokens
  /\ chunk_by_topic py1 self1 convs max_tokens
     = chunk_by_topic py2 self2 convs max_tokens
  /\ chunk_by_role self1 convs max_tokens = chunk_by_role self2 convs max_tokens
  /\ forall strategy,
       apply_strategy py1 self1 strategy convs max_tokens
       = apply_strategy py2 self2 strategy convs max_tokens.
Proof.
  pose proof (chunk_by_topic_interp py1 py2 self1 self2 convs max_tokens) as Htopic.
  split; [done|]. split; [done|]. split; [done|].
  intros strategy. unfold apply_strategy. by rewrite Htopic.
Qed.

(** ** The file driver *)

Lemma invalid_collection_load (w : World) (file_path : string) (data : File) :
  files w !! file_path = Some data ->
  invalid_collection data ->
  load_conversations w file_path = inl (ValueError "Invalid conversation format").
Proof.
  intros Hfile Hbad. unfold load_conversations, json_load. rewrite Hfile.
  by destruct data as [err|err|convs|[convs|]| |r].
Qed.

Lemma unknown_strategy_none (py : Interpreter) (self : ChunkerEngine)
    (strategy : string)
    (convs : list Conversation) (max_tokens : Z) :
  strategy ∉ ["size"; "topic"; "role"] ->
  apply_strategy py self strategy convs max_tokens = None.
Proof.
  intros Hnot. unfold apply_strategy.
  repeat case_bool_decide; subst; try done; exfalso; apply Hnot; set_solver.
Qed.

(** C9, as the code has it.  [process_file] raises nothing in the two
    cases.  When the file holds a value that is neither a list nor an
    object with the key [conversations], it prints
    [Error loading conversations: Invalid conversation format], whatever
    the strategy name; when the conversations load and the strategy name
    is outside size, topic and role, it prints
    [Unknown chunking strategy: ] followed by the name.  In both cases it
    prints that one line, returns [None] and leaves every file as it
    was. *)
Theorem driver_rejects (py : Interpreter) (self : ChunkerEngine) (w : World)
    (file_path strategy : string) (max_tokens : Z) (line : string) :
  rejected w file_path strategy line ->
  process_file py self w file_path strategy max_tokens = (print line w, inr None)
  /\ files (process_file py self w file_path strategy max_tokens).1 = files w
  /\ stdout (process_file py self w file_path strategy max_tokens).1
     = stdout w ++ [line].
Proof.
  intros Hrejected.
  assert (process_file py self w file_path strategy max_tokens
          = (print line w, inr None)) as Heq.
  { destruct Hrejected as [data Hfile Hbad|convs Hload Hunknown]; unfold process_file.
    - by rewrite (invalid_collection_load w file_path data Hfile Hbad).
    - rewrite Hload. by rewrite unknown_strategy_none. }
  by rewrite Heq.
Qed.

Lemma driver_rejects_witness :
  process_file Sample.interp Sample.engine (Sample.world_with (JsonDict None))
    "in.json" "topic" 1500
  = (print "Error loading conversations: Invalid conversation format"
       (Sample.world_with (JsonDict None)), inr None)
  /\ stdout (process_file Sample.interp Sample.engine
               (Sample.world_with (JsonList [Sample.conv_of [Sample.hi]]))
               "in.json" "sizes" 1500).1
     = ["Unknown chunking strategy: sizes"].
Proof.
  split.
  - apply (driver_rejects Sample.interp Sample.engine
             (Sample.world_with (JsonDict None)) "in.json" "topic" 1500).
    apply (rejected_collection _ _ _ (JsonDict None)); [reflexivity|exact I].
  - apply (driver_rejects Sample.interp Sample.engine
             (Sample.world_with (JsonList [Sample.conv_of [Sample.hi]]))
             "in.json" "sizes" 1500 "Unknown chunking strategy: sizes").
    apply (rejected_strategy _ _ _ [Sample.conv_of [Sample.hi]]); [reflexivity|].
    refine (bool_decide_unpack _ _). vm_compute. exact I.
Defined.

(** C9, as stated, fails: no exception leaves [process_file].  On a file
    that holds a number and on an unknown strategy name the method
    returns [None], after the lines below. *)
Lemma driver_errors_counterexample :
  process_file Sample.interp Sample.engine (Sample.world_with JsonScalar) "in.json" "size" 1500
  = (print "Error loading conversations: Invalid conversation format"
       (Sample.world_with JsonScalar), inr None)
  /\ process_file Sample.interp Sample.engine (Sample.world_with (JsonList [])) "in.json" "bogus" 1500
     = (print "Unknown chunking strategy: bogus"
          (Sample.world_with (JsonList [])), inr None)
  /\ ~ (exists e,
         (process_file Sample.interp Sample.engine (Sample.world_with JsonScalar)
            "in.json" "size" 1500).2 = inl e)
  /\ ~ (exists e,
         (process_file Sample.interp Sample.engine (Sample.world_with (JsonList []))
            "in.json" "bogus" 1500).2 = inl e).
Proof.
  split; [reflexivity|]. split; [reflexivity|].
  split; intros [e He]; vm_compute in He; discriminate.
Qed.

(** ** Splitting an oversized conversation *)

(** The split loop stores a message that does not fit only after it has
    stored the run before it: while the run is empty, a message whose
    own cost exceeds the budget is passed over. *)
Lemma split_skips_oversized_head (self : ChunkerEngine)
    (emit : list Message -> Z -> Chunk) (max_tokens : Z) (chunks : list Chunk)
    (msg : Message) (msgs : list Message) :
  max_tokens < msg_tokens self msg ->
  split_messages self emit max_tokens chunks (msg :: msgs)
  = split_messages self emit max_tokens chunks msgs.
Proof.
  intros Hbig. unfold split_messages. cbn [fold_left]. unfold split_step at 2.
  replace (max_tokens <? 0 + msg_tokens self msg) with true; [done|].
  symmetry. apply Z.ltb_lt. lia.
Qed.

(** A conversation with ten messages of 300 tokens each costs at least
    3008 tokens: the scenario's 3000 is out of reach. *)
Lemma scenario_C_cost_bound (self : ChunkerEngine) (conv : Conversation)
    (ms : list Message) :
  messages conv = Some ms ->
  length ms = 10%nat ->
  Forall (fun msg => msg_tokens self msg = 300) ms ->
  3008 <= conv_tokens self conv.
Proof.
  intros Hms Hlen Hcost.
  pose proof (conversation_text_bound conv ms Hms ltac:(by destruct ms)) as Hbound.
  assert (10 * 1202 <= sum_list_with
                         (fun msg => String.length (dumps_message msg) + 2) ms)%nat
    as Hsum.
  { clear Hbound Hms.
    do 10 (destruct ms as [|? ms]; [discriminate Hlen|]).
    destruct ms; [|discriminate Hlen].
    repeat match goal with
           | H : Forall _ (_ :: _) |- _ => apply Forall_cons in H as [? H]
           end.
    unfold msg_tokens, count_tokens in *. cbn [sum_list_with].
    repeat match goal with
           | H : Z.of_nat ?n / 4 = 300 |- _ =>
               assert (1200 <= n)%nat
                 by (pose proof (Z.mul_div_le (Z.of_nat n) 4);
                     pose proof (Z.mod_pos_bound (Z.of_nat n) 4);
                     pose proof (Z.div_mod (Z.of_nat n) 4); lia);
               clear H
           end.
    lia. }
  unfold conv_tokens, count_tokens.
  apply Z.div_le_lower_bound; lia.
Qed.

(** C6, as the code has it.  With a budget of 1000, a conversation with
    ten messages of 300 tokens each (which costs at least 3008 tokens and
    so is over the budget) is split into four chunks, of three, three,
    three and one message, counting 900, 900, 900 and 300 tokens; each
    holds one copy marked [_chunked]. *)
Theorem scenario_C_chunks (self : ChunkerEngine) (conv : Conversation)
    (ms : list Message) :
  messages conv = Some ms ->
  length ms = 10%nat ->
  Forall (fun msg => msg_tokens self msg = 300) ms ->
  chunk_by_size self [conv] 1000
  = [size_piece conv (take 3 ms) 900;
     size_piece conv (take 3 (drop 3 ms)) 900;
     size_piece conv (take 3 (drop 6 ms)) 900;
     size_piece conv (drop 9 ms) 300]
  /\ Forall (fun chunk =>
               exists entry, conversations chunk = [entry]
                 /\ _chunked entry = true
                 /\ (length (get_messages entry) <= 3)%nat)
       (chunk_by_size self [conv] 1000).
Proof.
  intros Hms Hlen Hcost.
  assert (1000 < conv_tokens self conv) as Hbig.
  { pose proof (scenario_C_cost_bound self conv ms Hms Hlen Hcost). lia. }
  assert (chunk_by_size self [conv] 1000
          = [size_piece conv (take 3 ms) 900;
             size_piece conv (take 3 (drop 3 ms)) 900;
             size_piece conv (take 3 (drop 6 ms)) 900;
             size_piece conv (drop 9 ms) 300]) as Hchunks.
  { do 10 (destruct ms as [|? ms]; [discriminate Hlen|]).
    destruct ms; [|discriminate Hlen].
    repeat match goal with
           | H : Forall _ (_ :: _) |- _ => apply Forall_cons in H as [? H]
           end.
    unfold chunk_by_size. cbn [fold_left]. unfold size_step.
    apply Z.ltb_lt in Hbig. rewrite Hbig.
    unfold get_messages. rewrite Hms. cbn [default from_option id].
    unfold split_messages. cbn [fold_left]. unfold split_step.
    repeat match goal with
           | H : msg_tokens _ _ = 300 |- _ => rewrite H; clear H
           end.
    reflexivity. }
  split; [done|]. rewrite Hchunks.
  repeat (apply Forall_cons; split);
    [ .. | apply Forall_nil ];
    eexists; (split; [reflexivity|]); (split; [reflexivity|]);
    unfold get_messages; simpl; rewrite ?length_take, ?length_drop; lia.
Qed.

Lemma scenario_C_chunks_witness :
  chunk_by_size Sample.engine [Sample.scenario_C] 1000
  = [size_piece Sample.scenario_C (replicate 3 Sample.msg300) 900;
     size_piece Sample.scenario_C (replicate 3 Sample.msg300) 900;
     size_piece Sample.scenario_C (replicate 3 Sample.msg300) 900;
     size_piece Sample.scenario_C [Sample.msg300] 300].
Proof.
  apply (scenario_C_chunks Sample.engine Sample.scenario_C
           (replicate 10 Sample.msg300)).
  - reflexivity.
  - reflexivity.
  - repeat constructor.
Defined.

(** C6, as stated, fails.  The conversation of ten messages of 1200
    characters (300 tokens) each costs 3008 tokens; with a budget of
    1000 the size strategy returns four chunks, not three. *)
Lemma scenario_C_counterexample :
  Forall (fun msg => msg_tokens Sample.engine msg = 300)
    (get_messages Sample.scenario_C)
  /\ length (get_messages Sample.scenario_C) = 10%nat
  /\ conv_tokens Sample.engine Sample.scenario_C = 3008
  /\ ((fun chunk => length (all_messages (conversations chunk)))
        <$> chunk_by_size Sample.engine [Sample.scenario_C] 1000)
     = [3; 3; 3; 1]%nat
  /\ length (chunk_by_size Sample.engine [Sample.scenario_C] 1000) <> 3%nat.
Proof.
  split; [repeat constructor|]. split; [reflexivity|].
  split; [by vm_compute|]. split; [by vm_compute|].
  by vm_compute.
Qed.

(** ** Messages kept when each fits the budget *)

Lemma emitted_messages_snoc (chunks : list Chunk) (chunk : Chunk) :
  emitted_messages (chunks ++ [chunk])
  = emitted_messages chunks ++ all_messages (conversations chunk).
Proof.
  unfold emitted_messages. rewrite fmap_app, concat_app. simpl.
  by rewrite app_nil_r.
Qed.

Lemma all_messages_snoc (convs : list Conversation) (conv : Conversation) :
  all_messages (convs ++ [conv]) = all_messages convs ++ get_messages conv.
Proof.
  unfold all_messages. rewrite fmap_app, concat_app. simpl.
  by rewrite app_nil_r.
Qed.

Lemma piece_messages (emit : list Message -> Z -> Chunk) (ms : list Message)
    (tokens : Z) :
  is_piece emit -> all_messages (conversations (emit ms tokens)) = ms.
Proof.
  intros Hpiece. destruct (Hpiece ms tokens) as (entry & -> & Hms & _).
  unfold all_messages, get_messages. simpl. rewrite Hms. simpl.
  by rewrite app_nil_r.
Qed.

Section MessagesKept.

Context (self : ChunkerEngine) (max_tokens : Z).

Lemma split_fold_messages (emit : list Message -> Z -> Chunk)
    (msgs : list Message) (chunks : list Chunk) (temp : list Message) (tokens : Z) :
  is_piece emit ->
  Forall (fun msg => msg_tokens self msg <= max_tokens) msgs ->
  (temp = [] -> tokens = 0) ->
  split_state_messages
    (fold_left (split_step self emit max_tokens) msgs (chunks, temp, tokens))
  = emitted_messages chunks ++ temp ++ msgs.
Proof.
  intros Hpiece. revert chunks temp tokens.
  induction msgs as [|msg msgs IH]; intros chunks temp tokens Hfit Hzero;
    cbn [fold_left].
  { unfold split_state_messages. simpl. by rewrite app_nil_r. }
  apply Forall_cons in Hfit as [Hmsg Hfit]. unfold split_step at 2.
  destruct (Z.ltb_spec max_tokens (tokens + msg_tokens self msg)) as [Hover|Hfits].
  - destruct temp as [|m0 temp'] eqn:Htemp.
    { specialize (Hzero eq_refl). lia. }
    rewrite IH by done. rewrite emitted_messages_snoc, piece_messages by done.
    by rewrite <- !app_assoc.
  - rewrite IH; [by rewrite <- !app_assoc|done|].
    intros Hnil. by destruct temp.
Qed.

Lemma split_messages_kept (emit : list Message -> Z -> Chunk)
    (chunks : list Chunk) (msgs : list Message) :
  is_piece emit ->
  Forall (fun msg => msg_tokens self msg <= max_tokens) msgs ->
  emitted_messages (split_messages self emit max_tokens chunks msgs)
  = emitted_messages chunks ++ msgs.
Proof.
  intros Hpiece Hfit. unfold split_messages.
  pose proof (split_fold_messages emit msgs chunks [] 0 Hpiece Hfit (fun _ => eq_refl))
    as Hfold.
  destruct (fold_left _ msgs _) as [[chunks' temp] tokens].
  unfold split_state_messages in Hfold. simpl in Hfold.
  unfold split_finish. destruct temp as [|m0 temp'] eqn:Htemp.
  - by rewrite app_nil_r in Hfold.
  - by rewrite emitted_messages_snoc, piece_messages.
Qed.

Lemma size_step_messages (st : pack_state) (conv : Conversation) :
  Forall (fun msg => msg_tokens self msg <= max_tokens) (get_messages conv) ->
  pack_state_messages (size_step self max_tokens st conv)
  = pack_state_messages st ++ get_messages conv.
Proof.
  destruct st as [[chunks current] tokens]. intros Hfit.
  unfold size_step, pack_state_messages.
  destruct (max_tokens <? conv_tokens self conv).
  - destruct current as [|c0 current'] eqn:Hcur; simpl.
    + rewrite split_messages_kept by (done || apply size_piece_is_piece).
      by rewrite !app_nil_r.
    + rewrite split_messages_kept by (done || apply size_piece_is_piece).
      rewrite emitted_messages_snoc. simpl.
      by rewrite app_nil_r.
  - destruct (tokens + conv_tokens self conv <=? max_tokens); simpl.
    + by rewrite all_messages_snoc, app_assoc.
    + rewrite emitted_messages_snoc. simpl.
      change (all_messages [conv]) with (get_messages conv ++ []).
      by rewrite app_nil_r.
Qed.

Lemma size_fold_messages (convs : list Conversation) (st : pack_state) :
  messages_fit self max_tokens convs ->
  pack_state_messages (fold_left (size_step self max_tokens) convs st)
  = pack_state_messages st ++ all_messages convs.
Proof.
  revert st. induction convs as [|conv convs IH]; intros st Hfit; cbn [fold_left].
  { simpl. by rewrite app_nil_r. }
  apply Forall_cons in Hfit as [Hconv Hfit].
  rewrite IH by done. rewrite size_step_messages by done.
  by rewrite <- app_assoc.
Qed.

Lemma pack_finish_messages (mk : list Conversation -> Z -> Chunk) (st : pack_state) :
  (forall convs tokens, conversations (mk convs tokens) = convs) ->
  emitted_messages (pack_finish mk st) = pack_state_messages st.
Proof.
  intros Hmk. destruct st as [[chunks current] tokens].
  unfold pack_finish, pack_state_messages. simpl.
  destruct current as [|c0 current'] eqn:Hcur.
  - by rewrite app_nil_r.
  - by rewrite emitted_messages_snoc, Hmk.
Qed.

(** The size strategy keeps every message, in order, when each message
    fits the budget on its own. *)
Lemma chunk_by_size_messages_kept (convs : list Conversation) :
  messages_fit self max_tokens convs ->
  emitted_messages (chunk_by_size self convs max_tokens) = all_messages convs.
Proof.
  intros Hfit. unfold chunk_by_size.
  rewrite pack_finish_messages by done.
  by rewrite size_fold_messages.
Qed.

Lemma group_fold_concat (msgs : list Message) (st : group_state) :
  group_state_messages (fold_left group_step msgs st)
  = group_state_messages st ++ msgs.
Proof.
  revert st. induction msgs as [|msg msgs IH]; intros [[groups current_role] current];
    cbn [fold_left].
  { by rewrite app_nil_r. }
  rewrite IH. unfold group_step, group_state_messages.
  destruct (bool_decide (role msg <> current_role) && bool_decide (current <> []));
    simpl.
  - rewrite concat_app. simpl. by rewrite app_nil_r, <- !app_assoc.
  - by rewrite <- !app_assoc.
Qed.

(** The role groups of a conversation, put together, are its messages. *)
Lemma role_groups_concat (msgs : list Message) :
  concat (role_groups_of msgs) = msgs.
Proof.
  unfold role_groups_of.
  pose proof (group_fold_concat msgs ([], None, [])) as Hfold.
  destruct (fold_left group_step msgs _) as [[groups current_role] current].
  unfold group_state_messages in Hfold.
  simpl in Hfold. destruct current as [|m0 current'] eqn:Hcur.
  - by rewrite app_nil_r in Hfold.
  - rewrite concat_app. simpl. by rewrite app_nil_r.
Qed.

Lemma role_group_step_messages (conv : Conversation) (st : pack_state)
    (group : list Message) :
  Forall (fun msg => msg_tokens self msg <= max_tokens) group ->
  pack_state_messages (role_group_step self max_tokens conv st group)
  ≡ₚ pack_state_messages st ++ group.
Proof.
  destruct st as [[chunks current] tokens]. intros Hfit.
  unfold role_group_step, pack_state_messages.
  destruct (max_tokens <? conv_tokens self (role_copy conv group)).
  - simpl. rewrite split_messages_kept by (done || apply role_piece_is_piece).
    rewrite <- !app_assoc. f_equiv. apply Permutation_app_comm.
  - destruct (tokens + conv_tokens self (role_copy conv group) <=? max_tokens); simpl.
    + by rewrite all_messages_snoc, app_assoc.
    + change (all_messages [role_copy conv group]) with (group ++ []).
      rewrite app_nil_r. destruct current as [|c0 current'] eqn:Hcur.
      * simpl. by rewrite app_nil_r.
      * by rewrite emitted_messages_snoc.
Qed.

Lemma role_groups_fold_messages (conv : Conversation) (groups : list (list Message))
    (st : pack_state) :
  Forall (Forall (fun msg => msg_tokens self msg <= max_tokens)) groups ->
  pack_state_messages (fold_left (role_group_step self max_tokens conv) groups st)
  ≡ₚ pack_state_messages st ++ concat groups.
Proof.
  revert st. induction groups as [|group groups IH]; intros st Hfit; cbn [fold_left].
  { simpl. by rewrite app_nil_r. }
  apply Forall_cons in Hfit as [Hgroup Hfit].
  rewrite IH by done. rewrite role_group_step_messages by done.
  simpl. by rewrite <- app_assoc.
Qed.

Lemma role_fold_messages (convs : list Conversation) (st : pack_state) :
  messages_fit self max_tokens convs ->
  pack_state_messages (fold_left (role_step self max_tokens) convs st)
  ≡ₚ pack_state_messages st ++ all_messages convs.
Proof.
  revert st. induction convs as [|conv convs IH]; intros st Hfit; cbn [fold_left].
  { simpl. by rewrite app_nil_r. }
  apply Forall_cons in Hfit as [Hconv Hfit].
  rewrite IH by done. unfold role_step.
  rewrite role_groups_fold_messages.
  - rewrite role_groups_concat. by rewrite <- app_assoc.
  - apply Forall_concat. by rewrite role_groups_concat.
Qed.

(** The role strategy keeps every message, each once, when each message
    fits the budget on its own. *)
Lemma chunk_by_role_messages_kept (convs : list Conversation) :
  messages_fit self max_tokens convs ->
  emitted_messages (chunk_by_role self convs max_tokens) ≡ₚ all_messages convs.
Proof.
  intros Hfit. unfold chunk_by_role.
  rewrite pack_finish_messages by done.
  by rewrite role_fold_messages.
Qed.

End MessagesKept.

Lemma message_count_length (convs : list Conversation) :
  message_count convs = length (all_messages convs).
Proof.
  unfold message_count, all_messages.
  induction convs as [|conv convs IH]; simpl; [done|].
  by rewrite length_app, IH.
Qed.

Lemma emitted_message_count_length (chunks : list Chunk) :
  emitted_message_count chunks = length (emitted_messages chunks).
Proof.
  unfold emitted_message_count, emitted_messages.
  induction chunks as [|chunk chunks IH]; simpl; [done|].
  by rewrite length_app, IH, message_count_length.
Qed.

(** Both strategies keep the number of messages when each message fits
    the budget on its own. *)
Lemma message_count_kept (self : ChunkerEngine) (max_tokens : Z)
    (convs : list Conversation) :
  messages_fit self max_tokens convs ->
  emitted_message_count (chunk_by_size self convs max_tokens) = message_count convs
  /\ emitted_message_count (chunk_by_role self convs max_tokens) = message_count convs.
Proof.
  intros Hfit. rewrite !emitted_message_count_length, message_count_length.
  split.
  - by rewrite chunk_by_size_messages_kept.
  - by rewrite chunk_by_role_messages_kept.
Qed.

(** ** Messages passed over *)

(** C4 at its failing input.  With a budget of 10, a conversation whose
    only message costs 14 tokens yields no chunk at all, under the size
    strategy and under the role strategy. *)
Theorem oversized_message_discarded :
  msg_tokens Sample.engine Sample.long_msg = 14
  /\ chunk_by_size Sample.engine [Sample.conv_of [Sample.long_msg]] 10 = []
  /\ chunk_by_role Sample.engine [Sample.conv_of [Sample.long_msg]] 10 = [].
Proof. split; [by vm_compute|]. split; by vm_compute. Qed.

(** C2 at its failing input.  With a budget of 10, of the three messages
    of the conversation only two are in the chunks, under the size
    strategy and under the role strategy: the first one, of 14 tokens,
    is in no chunk. *)
Theorem message_count_not_kept :
  message_count [Sample.conv_of [Sample.long_msg; Sample.hi; Sample.hi]] = 3%nat
  /\ chunk_by_size Sample.engine
       [Sample.conv_of [Sample.long_msg; Sample.hi; Sample.hi]] 10
     = [size_piece (Sample.conv_of [Sample.long_msg; Sample.hi; Sample.hi])
          [Sample.hi] 8;
        size_piece (Sample.conv_of [Sample.long_msg; Sample.hi; Sample.hi])
          [Sample.hi] 8]
  /\ emitted_message_count
       (chunk_by_size Sample.engine
          [Sample.conv_of [Sample.long_msg; Sample.hi; Sample.hi]] 10) = 2%nat
  /\ emitted_message_count
       (chunk_by_role Sample.engine
          [Sample.conv_of [Sample.long_msg; Sample.hi; Sample.hi]] 10) = 2%nat.
Proof.
  split; [reflexivity|]. split; [by vm_compute|]. split; by vm_compute.
Qed.

(** C3 at its failing input.  With a budget of 30, the conversation has a
    user group that fits (18 tokens) and an assistant group that does not
    (41 tokens, two messages of 15 tokens).  The role
    strategy stores the assistant group's piece first and the chunk with
    the user group, still open when the split began, last: the messages
    come out as reply, reply, user, not in their original order. *)
Theorem role_order_not_kept :
  all_messages [Sample.conv_of [Sample.hi; Sample.reply1; Sample.reply2]]
  = [Sample.hi; Sample.reply1; Sample.reply2]
  /\ chunk_by_role Sample.engine
       [Sample.conv_of [Sample.hi; Sample.reply1; Sample.reply2]] 30
     = [role_piece (Sample.conv_of [Sample.hi; Sample.reply1; Sample.reply2])
          [Sample.reply1; Sample.reply2] 30;
        role_chunk
          [role_copy (Sample.conv_of [Sample.hi; Sample.reply1; Sample.reply2])
             [Sample.hi]] 18]
  /\ emitted_messages
       (chunk_by_role Sample.engine
          [Sample.conv_of [Sample.hi; Sample.reply1; Sample.reply2]] 30)
     = [Sample.reply1; Sample.reply2; Sample.hi].
Proof. split; [reflexivity|]. split; by vm_compute. Qed.

(** ** The token estimate *)

(** X1.  the estimate of a text put together from two parts is the sum of
    the estimates of the parts, or one more. *)
Theorem count_tokens_app (self : ChunkerEngine) (text1 text2 : string) :
  count_tokens self text1 + count_tokens self text2
  <= count_tokens self (text1 +:+ text2)
  <= count_tokens self text1 + count_tokens self text2 + 1.
Proof.
  unfold count_tokens. rewrite string_length_app, Nat2Z.inj_add.
  generalize (Z.of_nat (String.length text1)) (Z.of_nat (String.length text2)).
  intros a b.
  pose proof (Z.div_mod a 4). pose proof (Z.mod_pos_bound a 4).
  pose proof (Z.div_mod b 4). pose proof (Z.mod_pos_bound b 4).
  pose proof (Z.div_mod (a + b) 4). pose proof (Z.mod_pos_bound (a + b) 4).
  lia.
Qed.

Lemma msg_tokens_sum_text (self : ChunkerEngine) (ms : list Message) :
  4 * sum_tokens (msg_tokens self) ms
  <= Z.of_nat (sum_list_with (fun msg => String.length (dumps_message msg)) ms).
Proof.
  induction ms as [|msg ms IH]; cbn [sum_tokens foldr sum_list_with]; [done|].
  fold (sum_tokens (msg_tokens self) ms).
  unfold msg_tokens at 1, count_tokens.
  pose proof (Z.mul_div_le (Z.of_nat (String.length (dumps_message msg))) 4).
  lia.
Qed.

Lemma sum_list_with_plus {A : Type} (f : A -> nat) (k : nat) (l : list A) :
  sum_list_with (fun x => f x + k)%nat l = (sum_list_with f l + k * length l)%nat.
Proof. induction l as [|x l IH]; simpl; [lia|]. rewrite IH. lia. Qed.

(** A conversation with messages costs at least four tokens more than
    its messages cost together. *)
Lemma messages_cost_below_conversation (self : ChunkerEngine)
    (conv : Conversation) (ms : list Message) :
  messages conv = Some ms ->
  ms <> [] ->
  sum_tokens (msg_tokens self) ms + 4 <= conv_tokens self conv.
Proof.
  intros Hms Hne.
  pose proof (conversation_text_bound conv ms Hms Hne) as Hbound.
  rewrite sum_list_with_plus in Hbound.
  pose proof (msg_tokens_sum_text self ms) as Hsum.
  assert (1 <= length ms)%nat by (destruct ms; [done|simpl; lia]).
  unfold conv_tokens, count_tokens. apply Z.div_le_lower_bound; lia.
Qed.

(** X2.  whatever the strategy, a chunk counts exactly the cost of the
    serialisations of its entries, or it holds a single entry and counts
    at least four tokens less than the serialisation of that entry
    costs. *)
Theorem token_count_never_overstates (py : Interpreter) (self : ChunkerEngine)
    (strategy : string) (convs : list Conversation) (max_tokens : Z)
    (chunks : list Chunk) :
  apply_strategy py self strategy convs max_tokens = Some chunks ->
  Forall (fun chunk =>
            counts_entries self chunk
            \/ exists entry, conversations chunk = [entry]
                 /\ token_count chunk + 4 <= conv_tokens self entry)
    chunks.
Proof.
  intros Hrun. eapply Forall_impl; [by eapply apply_strategy_shape|].
  intros chunk [(_ & Hsum & _)|entry ms Hone Hms Hne _ Hsum _]; [by left|].
  right. exists entry. split; [done|]. rewrite Hsum.
  by apply messages_cost_below_conversation.
Qed.

Lemma token_count_never_overstates_witness :
  Forall (fun chunk =>
            counts_entries Sample.engine chunk
            \/ exists entry, conversations chunk = [entry]
                 /\ token_count chunk + 4 <= conv_tokens Sample.engine entry)
    (chunk_by_role Sample.engine
       [Sample.conv_of [Sample.hi; Sample.reply1; Sample.reply2]] 30).
Proof.
  apply (token_count_never_overstates Sample.interp Sample.engine "role"
           [Sample.conv_of [Sample.hi; Sample.reply1; Sample.reply2]] 30).
  reflexivity.
Defined.

(** ** Where the entries of a chunk come from *)

Section SplitRuns.

Context (self : ChunkerEngine) (max_tokens : Z) (emit : list Message -> Z -> Chunk).
Context (P : Chunk -> Prop) (msgs : list Message).
Hypothesis emit_run :
  forall ms, ms <> [] -> run_of ms msgs ->
    P (emit ms (sum_tokens (msg_tokens self) ms)).

Lemma split_fold_runs (rest pre temp : list Message) (chunks : list Chunk) :
  msgs = pre ++ temp ++ rest ->
  Forall P chunks ->
  Forall P
    (split_finish emit
       (fold_left (split_step self emit max_tokens) rest
          (chunks, temp, sum_tokens (msg_tokens self) temp))).
Proof.
  revert pre temp chunks.
  induction rest as [|msg rest IH]; intros pre temp chunks Hmsgs Hchunks;
    cbn [fold_left].
  - unfold split_finish. destruct temp as [|m0 temp'] eqn:Htemp; [done|].
    apply Forall_app. split; [done|]. apply Forall_singleton.
    apply emit_run; [done|]. by exists pre, [].
  - unfold split_step at 2.
    destruct (max_tokens <? sum_tokens (msg_tokens self) temp + msg_tokens self msg).
    + destruct temp as [|m0 temp'] eqn:Htemp.
      * apply (IH (pre ++ [msg]) [] chunks); [|done].
        by rewrite Hmsgs, <- app_assoc.
      * replace (msg_tokens self msg) with (sum_tokens (msg_tokens self) [msg])
          by (simpl; lia).
        apply (IH (pre ++ m0 :: temp') [msg]).
        { by rewrite Hmsgs, <- !app_assoc. }
        apply Forall_app. split; [done|]. apply Forall_singleton.
        apply emit_run; [done|]. by exists pre, (msg :: rest).
    + rewrite <- sum_tokens_snoc.
      apply (IH pre (temp ++ [msg])); [|done].
      by rewrite Hmsgs, <- !app_assoc.
Qed.

Lemma split_messages_runs (chunks : list Chunk) :
  Forall P chunks ->
  Forall P (split_messages self emit max_tokens chunks msgs).
Proof.
  intros Hchunks. unfold split_messages.
  by apply (split_fold_runs msgs [] [] chunks).
Qed.

End SplitRuns.

Section Provenance.

Context (self : ChunkerEngine) (max_tokens : Z) (convs : list Conversation).

Lemma size_step_run (done : list Conversation) (conv : Conversation)
    (rest : list Conversation) (st : pack_state) :
  convs = done ++ conv :: rest ->
  size_run_inv self max_tokens convs done st ->
  size_run_inv self max_tokens convs (done ++ [conv])
    (size_step self max_tokens st conv).
Proof.
  destruct st as [[chunks current] tokens].
  intros Hconvs (Hch & [pre Hdone] & Hfits & Hsum & Hbudget).
  assert (conv ∈ convs) as Hin.
  { rewrite Hconvs. apply elem_of_app. right. by left. }
  assert (current <> [] ->
          size_emitted self max_tokens convs (size_chunk current tokens)) as Hflush.
  { intros Hne. rewrite Hsum. apply size_emitted_packed; [done| |done|].
    - exists pre, (conv :: rest). by rewrite Hconvs, Hdone, <- app_assoc.
    - destruct Hbudget; [done|lia]. }
  unfold size_step.
  destruct (Z.ltb_spec max_tokens (conv_tokens self conv)) as [Hbig|Hsmall].
  - assert (forall chunks',
              Forall (size_emitted self max_tokens convs) chunks' ->
              Forall (size_emitted self max_tokens convs)
                (split_messages self (size_piece conv) max_tokens chunks'
                   (get_messages conv))) as Hsplit.
    { intros chunks'. apply split_messages_runs.
      intros ms Hne Hrun. by apply size_emitted_split. }
    destruct current as [|c0 current'] eqn:Hcur.
    + split; [by apply Hsplit|]. split; [by exists (done ++ [conv]); rewrite app_nil_r|].
      auto.
    + split.
      { apply Hsplit, Forall_app. split; [done|]. apply Forall_singleton. by apply Hflush. }
      split; [by exists (done ++ [conv]); rewrite app_nil_r|]. auto.
  - destruct (Z.leb_spec (tokens + conv_tokens self conv) max_tokens) as [Hfit|Hover].
    + split; [done|]. split; [exists pre; by rewrite Hdone, app_assoc|].
      split; [apply Forall_app; split; [done|by apply Forall_singleton]|].
      split; [rewrite sum_tokens_snoc; lia|by right].
    + assert (current <> []) as Hne.
      { intros ->. simpl in Hsum. lia. }
      split.
      { apply Forall_app. split; [done|]. apply Forall_singleton. by apply Hflush. }
      split; [by exists done|]. split; [by apply Forall_singleton|].
      split; [simpl; lia|by right].
Qed.

Lemma size_fold_run (rest done : list Conversation) (st : pack_state) :
  convs = done ++ rest ->
  size_run_inv self max_tokens convs done st ->
  size_run_inv self max_tokens convs convs
    (fold_left (size_step self max_tokens) rest st).
Proof.
  revert done st. induction rest as [|conv rest IH]; intros done st Hconvs Hinv;
    cbn [fold_left].
  - rewrite app_nil_r in Hconvs. by subst done.
  - apply (IH (done ++ [conv])); [by rewrite Hconvs, <- app_assoc|].
    by eapply size_step_run.
Qed.

Lemma chunk_by_size_emitted :
  Forall (size_emitted self max_tokens convs) (chunk_by_size self convs max_tokens).
Proof.
  unfold chunk_by_size.
  pose proof (size_fold_run convs [] ([], [], 0) eq_refl) as Hinv.
  destruct (fold_left _ convs _) as [[chunks current] tokens].
  destruct Hinv as (Hch & [pre Hdone] & Hfits & Hsum & Hbudget).
  { split; [done|]. split; [by exists []|]. auto. }
  unfold pack_finish. destruct current as [|c0 current'] eqn:Hcur; [done|].
  apply Forall_app. split; [done|]. apply Forall_singleton.
  rewrite Hsum. apply size_emitted_packed; [done| |done|].
  - exists pre, []. by rewrite app_nil_r.
  - destruct Hbudget; [done|lia].
Qed.

Lemma role_group_step_run (conv : Conversation) (group : list Message)
    (st : pack_state) :
  conv ∈ convs ->
  group ∈ role_groups_of (get_messages conv) ->
  role_run_inv self max_tokens convs st ->
  role_run_inv self max_tokens convs (role_group_step self max_tokens conv st group).
Proof.
  destruct st as [[chunks current] tokens].
  intros Hconv Hgroup (Hch & Hentries & Hsum & Hbudget).
  unfold role_group_step.
  destruct (Z.ltb_spec max_tokens (conv_tokens self (role_copy conv group)))
    as [Hbig|Hsmall].
  - split; [|done]. apply split_messages_runs; [|done].
    intros ms Hne Hrun. by apply (role_emitted_split _ _ _ conv group ms).
  - assert (role_entry self max_tokens convs (role_copy conv group)) as Hentry.
    { by exists conv, group. }
    destruct (Z.leb_spec (tokens + conv_tokens self (role_copy conv group)) max_tokens)
      as [Hfit|Hover].
    + split; [done|].
      split; [apply Forall_app; split; [done|by apply Forall_singleton]|].
      split; [rewrite sum_tokens_snoc; lia|by right].
    + split.
      { destruct current as [|c0 current'] eqn:Hcur; [done|].
        apply Forall_app. split; [done|]. apply Forall_singleton.
        rewrite Hsum. apply role_emitted_packed; [done|done|].
        destruct Hbudget; [done|lia]. }
      split; [by apply Forall_singleton|]. split; [simpl; lia|by right].
Qed.

Lemma role_step_run (conv : Conversation) (st : pack_state) :
  conv ∈ convs ->
  role_run_inv self max_tokens convs st ->
  role_run_inv self max_tokens convs (role_step self max_tokens st conv).
Proof.
  intros Hconv. unfold role_step.
  assert (forall group, group ∈ role_groups_of (get_messages conv) ->
                        group ∈ role_groups_of (get_messages conv)) as Hsub by done.
  revert Hsub st.
  generalize (role_groups_of (get_messages conv)) at 1 3 as groups.
  induction groups as [|group groups IH]; intros Hsub st Hinv; cbn [fold_left];
    [done|].
  apply IH; [intros g Hg; apply Hsub; set_solver|].
  apply role_group_step_run; [done|apply Hsub; set_solver|done].
Qed.

Lemma role_fold_run (rest : list Conversation) (st : pack_state) :
  (forall conv, conv ∈ rest -> conv ∈ convs) ->
  role_run_inv self max_tokens convs st ->
  role_run_inv self max_tokens convs (fold_left (role_step self max_tokens) rest st).
Proof.
  revert st. induction rest as [|conv rest IH]; intros st Hsub Hinv; cbn [fold_left];
    [done|].
  apply IH; [intros c Hc; apply Hsub; set_solver|].
  apply role_step_run; [apply Hsub; set_solver|done].
Qed.

Lemma chunk_by_role_emitted :
  Forall (role_emitted self max_tokens convs) (chunk_by_role self convs max_tokens).
Proof.
  unfold chunk_by_role.
  pose proof (role_fold_run convs ([], [], 0) (fun _ H => H)) as Hinv.
  destruct (fold_left _ convs _) as [[chunks current] tokens].
  destruct Hinv as (Hch & Hentries & Hsum & Hbudget).
  { split; [done|]. split; [done|]. auto. }
  unfold pack_finish. destruct current as [|c0 current'] eqn:Hcur; [done|].
  apply Forall_app. split; [done|]. apply Forall_singleton.
  rewrite Hsum. apply role_emitted_packed; [done|done|].
  destruct Hbudget; [done|lia].
Qed.

End Provenance.

(** ** Token accounting *)

(** C5, as the code has it.  A chunk counts in one of two ways, and the way
    it was made tells which.
    - Size: a chunk of input conversations, each within the budget, counts
      the sum of the estimated costs of the serialisations of its
      entries.  A chunk made by splitting an input conversation that is
      over the budget holds one copy, marked [_chunked], with a non-empty
      run of the messages of that conversation; it counts the sum of the
      estimated costs of the serialisations of these messages, which is
      less than the cost of the serialisation of the copy.
    - Topic: every chunk holds input conversations and counts the sum of
      the costs of the serialisations of its entries.
    - Role: a chunk of copies of whole role groups, each copy within the
      budget, counts the sum of the costs of the serialisations of its
      entries.  A chunk made by splitting a role group whose copy is over
      the budget holds one copy, marked [_chunked_by_role], with a
      non-empty run of the messages of that group; it counts the sum of
      the costs of the serialisations of these messages, which is less
      than the cost of the serialisation of the copy. *)
Theorem token_count_accounting (py : Interpreter) (self : ChunkerEngine)
    (convs : list Conversation) (max_tokens : Z) :
  Forall (fun chunk =>
            (Forall (fun entry => entry ∈ convs
                                  /\ conv_tokens self entry <= max_tokens)
               (conversations chunk)
             /\ counts_entries self chunk)
            \/ (exists conv ms,
                  conv ∈ convs
                  /\ max_tokens < conv_tokens self conv
                  /\ ms <> []
                  /\ run_of ms (get_messages conv)
                  /\ conversations chunk = [chunked_copy conv ms]
                  /\ token_count chunk = sum_tokens (msg_tokens self) ms
                  /\ token_count chunk < conv_tokens self (chunked_copy conv ms)))
    (chunk_by_size self convs max_tokens)
  /\ Forall (fun chunk =>
               Forall (fun entry => entry ∈ convs) (conversations chunk)
               /\ counts_entries self chunk)
       (chunk_by_topic py self convs max_tokens)
  /\ Forall (fun chunk =>
               (Forall (role_entry self max_tokens convs) (conversations chunk)
                /\ counts_entries self chunk)
               \/ (exists conv group ms,
                     conv ∈ convs
                     /\ group ∈ role_groups_of (get_messages conv)
                     /\ max_tokens < conv_tokens self (role_copy conv group)
                     /\ ms <> []
                     /\ run_of ms group
                     /\ conversations chunk = [role_copy conv ms]
                     /\ token_count chunk = sum_tokens (msg_tokens self) ms
                     /\ token_count chunk < conv_tokens self (role_copy conv ms)))
       (chunk_by_role self convs max_tokens).
Proof.
  split; [|split].
  - eapply Forall_impl; [apply chunk_by_size_emitted|].
    intros chunk [entries Hne (pre & post & Hrun) Hfits Hsum|conv ms Hin Hbig Hne Hrun].
    + left. split; [|done]. cbn [conversations size_chunk].
      apply Forall_forall. intros entry Hentry. split.
      * rewrite Hrun. set_solver.
      * by eapply Forall_forall in Hfits.
    + right. exists conv, ms. do 6 (split; [done|]).
      pose proof (messages_cost_below_conversation self (chunked_copy conv ms) ms
                    eq_refl Hne) as Hcost.
      cbn [token_count size_piece size_chunk]. lia.
  - apply Forall_forall. intros chunk Hchunk. split.
    + apply Forall_forall. intros entry Hentry.
      assert (entry ∈ concat (conversations <$> chunk_by_topic py self convs max_tokens))
        as Hall.
      { apply list_elem_of_In, in_concat. exists (conversations chunk).
        split; apply list_elem_of_In; [by apply list_elem_of_fmap_2|done]. }
      unfold chunk_by_topic in Hall.
      rewrite cluster_chunks_conversations in Hall.
      rewrite (topic_clusters_permutation py self convs max_tokens) in Hall.
      by rewrite lookup_total_seq in Hall.
    + pose proof (chunk_by_topic_packed py self max_tokens convs) as Hpacked.
      eapply Forall_forall in Hpacked; [|done]. by destruct Hpacked as (_ & Hsum & _).
  - eapply Forall_impl; [apply chunk_by_role_emitted|].
    intros chunk [entries Hne Hentries Hsum|conv group ms Hin Hgroup Hbig Hne Hrun].
    + left. by split.
    + right. exists conv, group, ms. do 7 (split; [done|]).
      pose proof (messages_cost_below_conversation self (role_copy conv ms) ms
                    eq_refl Hne) as Hcost.
      cbn [token_count role_piece role_chunk]. lia.
Qed.

(** C5, as stated, fails.  With a budget of 20 the conversation of three
    messages of 8 tokens is split; the first chunk holds a copy with two
    messages, counts 16 tokens, and the serialisation of that copy costs
    25 tokens. *)
Lemma token_count_counterexample :
  chunk_by_size Sample.engine
    [Sample.conv_of [Sample.hi; Sample.hi; Sample.hi]] 20
  = [size_piece (Sample.conv_of [Sample.hi; Sample.hi; Sample.hi])
       [Sample.hi; Sample.hi] 16;
     size_piece (Sample.conv_of [Sample.hi; Sample.hi; Sample.hi])
       [Sample.hi] 8]
  /\ conv_tokens Sample.engine
       (chunked_copy (Sample.conv_of [Sample.hi; Sample.hi; Sample.hi])
          [Sample.hi; Sample.hi]) = 25
  /\ ~ Forall (counts_entries Sample.engine)
       (chunk_by_size Sample.engine
          [Sample.conv_of [Sample.hi; Sample.hi; Sample.hi]] 20).
Proof.
  split; [by vm_compute|]. split; [by vm_compute|].
  intros Hall. apply Forall_cons in Hall as [Hfirst _].
  vm_compute in Hfirst. discriminate.
Qed.

(** X3.  every chunk of the size strategy is of one of two kinds.  Either
    it holds a non-empty stretch of neighbouring input conversations,
    unchanged, each within the budget, and counts their cost, which is
    within the budget.  Or it holds one copy, marked [_chunked], of an
    input conversation that is over the budget, with a non-empty stretch
    of the neighbouring messages of that conversation, and counts the
    cost of these messages. *)
Theorem size_chunks_provenance (self : ChunkerEngine) (convs : list Conversation)
    (max_tokens : Z) :
  Forall (fun chunk =>
            (exists entries,
               chunk = size_chunk entries (sum_tokens (conv_tokens self) entries)
               /\ entries <> []
               /\ run_of entries convs
               /\ Forall (fun conv => conv_tokens self conv <= max_tokens) entries
               /\ token_count chunk <= max_tokens)
            \/ (exists conv ms,
                  chunk = size_chunk [chunked_copy conv ms]
                            (sum_tokens (msg_tokens self) ms)
                  /\ conv ∈ convs
                  /\ max_tokens < conv_tokens self conv
                  /\ ms <> []
                  /\ run_of ms (get_messages conv)))
    (chunk_by_size self convs max_tokens).
Proof.
  eapply Forall_impl; [apply chunk_by_size_emitted|].
  intros chunk [entries Hne Hrun Hfits Hsum|conv ms Hin Hbig Hne Hrun].
  - left. by exists entries.
  - right. by exists conv, ms.
Qed.

(** X4.  every chunk of the role strategy is of one of two kinds.  Either
    it holds copies, marked [_chunked_by_role], of input conversations,
    each with one whole role group of that conversation and each within
    the budget, and counts their cost, which is within the budget.  Or
    it holds one such copy with a non-empty stretch of neighbouring
    messages of a role group whose copy is over the budget, and counts
    the cost of these messages. *)
Theorem role_chunks_provenance (self : ChunkerEngine) (convs : list Conversation)
    (max_tokens : Z) :
  Forall (fun chunk =>
            (exists entries,
               chunk = role_chunk entries (sum_tokens (conv_tokens self) entries)
               /\ entries <> []
               /\ Forall (fun entry =>
                            exists conv group,
                              conv ∈ convs
                              /\ group ∈ role_groups_of (get_messages conv)
                              /\ entry = role_copy conv group
                              /\ conv_tokens self entry <= max_tokens)
                    entries
               /\ token_count chunk <= max_tokens)
            \/ (exists conv group ms,
                  chunk = role_chunk [role_copy conv ms]
                            (sum_tokens (msg_tokens self) ms)
                  /\ conv ∈ convs
                  /\ group ∈ role_groups_of (get_messages conv)
                  /\ max_tokens < conv_tokens self (role_copy conv group)
                  /\ ms <> []
                  /\ run_of ms group))
    (chunk_by_role self convs max_tokens).
Proof.
  eapply Forall_impl; [apply chunk_by_role_emitted|].
  intros chunk [entries Hne Hentries Hsum|conv group ms Hin Hgroup Hbig Hne Hrun].
  - left. by exists entries.
  - right. by exists conv, group, ms.
Qed.

(** X5.  every chunk carries the name of the strategy that made it. *)
Theorem chunk_strategy_label (py : Interpreter) (self : ChunkerEngine)
    (strategy : string) (convs : list Conversation) (max_tokens : Z)
    (chunks : list Chunk) :
  apply_strategy py self strategy convs max_tokens = Some chunks ->
  Forall (fun chunk => chunk_strategy chunk = strategy) chunks.
Proof.
  intros [[-> ->]|[[-> ->]|[-> ->]]]%apply_strategy_cases.
  - eapply Forall_impl; [apply chunk_by_size_emitted|]. by intros chunk [|].
  - unfold chunk_by_topic. apply Forall_fmap, Forall_forall. by intros cluster _.
  - eapply Forall_impl; [apply chunk_by_role_emitted|]. by intros chunk [|].
Qed.

Lemma chunk_strategy_label_witness :
  Forall (fun chunk => chunk_strategy chunk = "role")
    (chunk_by_role Sample.engine
       [Sample.conv_of [Sample.hi; Sample.reply1; Sample.reply2]] 30).
Proof.
  apply (chunk_strategy_label Sample.interp Sample.engine "role"
           [Sample.conv_of [Sample.hi; Sample.reply1; Sample.reply2]] 30).
  reflexivity.
Defined.

(** ** The size strategy when every conversation fits *)

Lemma could_not_merge_snoc (self : ChunkerEngine) (max_tokens : Z)
    (chunks : list Chunk) (chunk' : Chunk) :
  could_not_merge self max_tokens chunks ->
  (forall chunk, last chunks = Some chunk ->
     exists conv, head (conversations chunk') = Some conv
       /\ max_tokens < token_count chunk + conv_tokens self conv) ->
  could_not_merge self max_tokens (chunks ++ [chunk']).
Proof.
  induction chunks as [|c1 chunks IH]; intros Hmerge Hlast; [done|].
  destruct chunks as [|c2 chunks].
  - simpl. split; [|done]. by apply Hlast.
  - destruct Hmerge as [Hpair Hmerge]. split; [done|].
    apply IH; [done|]. intros chunk Hchunk. by apply Hlast.
Qed.

Section WholeConversations.

Context (self : ChunkerEngine) (max_tokens : Z).

Lemma size_step_whole (done : list Conversation) (conv : Conversation)
    (st : pack_state) :
  conv_tokens self conv <= max_tokens ->
  size_whole_inv self max_tokens done st ->
  size_whole_inv self max_tokens (done ++ [conv]) (size_step self max_tokens st conv).
Proof.
  destruct st as [[chunks current] tokens].
  intros Hfits (Hdone & Hmerge & Hfirst & Hlast). unfold size_step.
  destruct (Z.ltb_spec max_tokens (conv_tokens self conv)) as [Hbig|_]; [lia|].
  destruct (Z.leb_spec (tokens + conv_tokens self conv) max_tokens) as [Hfit|Hover].
  - split; [by rewrite app_assoc, Hdone|]. split; [done|].
    split; [by destruct current|].
    intros chunk conv' Hchunk Hhead. destruct current as [|c0 current'].
    + rewrite Hfirst in Hchunk by done. done.
    + by apply Hlast.
  - split.
    { rewrite fmap_app, concat_app. simpl. by rewrite app_nil_r, Hdone. }
    split.
    { apply could_not_merge_snoc; [done|]. intros chunk Hchunk. simpl.
      destruct current as [|c0 current'].
      - rewrite Hfirst in Hchunk by done. done.
      - exists c0. split; [done|]. by apply Hlast. }
    split; [done|].
    intros chunk conv' Hchunk Hhead. rewrite last_snoc in Hchunk.
    simpl in Hhead. by simplify_eq.
Qed.

Lemma size_fold_whole (rest done : list Conversation) (st : pack_state) :
  Forall (fun conv => conv_tokens self conv <= max_tokens) rest ->
  size_whole_inv self max_tokens done st ->
  size_whole_inv self max_tokens (done ++ rest)
    (fold_left (size_step self max_tokens) rest st).
Proof.
  revert done st. induction rest as [|conv rest IH]; intros done st Hfits Hinv;
    cbn [fold_left].
  - by rewrite app_nil_r.
  - apply Forall_cons in Hfits as [Hconv Hfits].
    replace (done ++ conv :: rest) with ((done ++ [conv]) ++ rest)
      by (by rewrite <- app_assoc).
    apply IH; [done|]. by apply size_step_whole.
Qed.

Lemma chunk_by_size_whole (convs : list Conversation) :
  Forall (fun conv => conv_tokens self conv <= max_tokens) convs ->
  concat (conversations <$> chunk_by_size self convs max_tokens) = convs
  /\ could_not_merge self max_tokens (chunk_by_size self convs max_tokens).
Proof.
  intros Hfits. unfold chunk_by_size.
  pose proof (size_fold_whole convs [] ([], [], 0) Hfits) as Hinv.
  destruct (fold_left _ convs _) as [[chunks current] tokens].
  destruct Hinv as (Hdone & Hmerge & Hfirst & Hlast).
  { split; [done|]. split; [done|]. split; [done|]. intros chunk conv Hchunk. done. }
  unfold pack_finish. destruct current as [|c0 current'] eqn:Hcur.
  - by rewrite app_nil_r in Hdone.
  - split.
    + rewrite fmap_app, concat_app. simpl. by rewrite app_nil_r.
    + apply could_not_merge_snoc; [done|]. intros chunk Hchunk. simpl.
      exists c0. split; [done|]. by apply Hlast.
Qed.

End WholeConversations.

(** X6.  when no conversation is over the budget, the size strategy stores
    the input conversations themselves, all of them, once each and in
    their order: the entries of the chunks, put together, are the
    input. *)
Theorem size_keeps_whole_conversations (self : ChunkerEngine)
    (convs : list Conversation) (max_tokens : Z) :
  Forall (fun conv => conv_tokens self conv <= max_tokens) convs ->
  concat (conversations <$> chunk_by_size self convs max_tokens) = convs.
Proof. intros Hfits. by apply chunk_by_size_whole. Qed.

Lemma size_keeps_whole_conversations_witness :
  concat (conversations
            <$> chunk_by_size Sample.engine
                  [Sample.conv_of [Sample.hi]; Sample.conv_of [Sample.long_msg];
                   Sample.conv_of [Sample.hi]] 30)
  = [Sample.conv_of [Sample.hi]; Sample.conv_of [Sample.long_msg];
     Sample.conv_of [Sample.hi]].
Proof.
  apply (size_keeps_whole_conversations Sample.engine
           [Sample.conv_of [Sample.hi]; Sample.conv_of [Sample.long_msg];
            Sample.conv_of [Sample.hi]] 30).
  repeat constructor; by vm_compute.
Defined.

(** X7.  when no conversation is over the budget, the size strategy packs
    greedily: no chunk could have taken the first conversation of the
    chunk after it, the two together are over the budget. *)
Theorem size_packs_greedily (self : ChunkerEngine) (convs : list Conversation)
    (max_tokens : Z) :
  Forall (fun conv => conv_tokens self conv <= max_tokens) convs ->
  could_not_merge self max_tokens (chunk_by_size self convs max_tokens).
Proof. intros Hfits. by apply chunk_by_size_whole. Qed.

Lemma size_packs_greedily_witness :
  could_not_merge Sample.engine 30
    (chunk_by_size Sample.engine
       [Sample.conv_of [Sample.hi]; Sample.conv_of [Sample.long_msg];
        Sample.conv_of [Sample.hi]] 30).
Proof.
  apply (size_packs_greedily Sample.engine
           [Sample.conv_of [Sample.hi]; Sample.conv_of [Sample.long_msg];
            Sample.conv_of [Sample.hi]] 30).
  repeat constructor; by vm_compute.
Defined.

(** ** Role groups *)

Lemma roles_alternate_snoc (groups : list (list Message)) (group' : list Message) :
  roles_alternate groups ->
  (forall group msg1 msg2,
     last groups = Some group -> msg1 ∈ group -> msg2 ∈ group' ->
     role msg1 <> role msg2) ->
  roles_alternate (groups ++ [group']).
Proof.
  induction groups as [|g1 groups IH]; intros Halt Hlast; [done|].
  destruct groups as [|g2 groups].
  - simpl. split; [|done]. intros msg1 msg2. by apply Hlast.
  - destruct Halt as [Hpair Halt]. split; [done|].
    apply IH; [done|]. intros group msg1 msg2 Hgroup. by apply Hlast.
Qed.

Lemma group_step_inv (st : group_state) (msg : Message) :
  group_inv st -> group_inv (group_step st msg).
Proof.
  destruct st as [[groups current_role] current].
  intros (Hne & Hsame & Halt & Hcur & Hfirst & Hlast). unfold group_step.
  destruct (decide (role msg <> current_role)) as [Hrole|Hrole];
    [destruct (decide (current <> [])) as [Hcurrent|Hcurrent]|].
  - rewrite !bool_decide_eq_true_2 by done. simpl.
    split; [apply Forall_app; split; [done|by apply Forall_singleton]|].
    split.
    { apply Forall_app. split; [done|]. apply Forall_singleton.
      intros msg1 msg2 Hmsg1 Hmsg2. rewrite Forall_forall in Hcur.
      by rewrite (Hcur msg1), (Hcur msg2). }
    split.
    { apply roles_alternate_snoc; [done|].
      intros group msg1 msg2 Hgroup Hmsg1 Hmsg2. rewrite Forall_forall in Hcur.
      rewrite (Hcur msg2) by done. by eapply Hlast. }
    split; [by apply Forall_singleton|]. split; [done|].
    intros group msg' Hgroup Hmsg'. rewrite last_snoc in Hgroup. simplify_eq.
    rewrite Forall_forall in Hcur. rewrite (Hcur msg') by done. congruence.
  - rewrite (bool_decide_eq_false_2 (current <> [])) by done.
    rewrite andb_false_r. apply dec_stable in Hcurrent. subst current.
    rewrite (Hfirst eq_refl). simpl.
    split; [done|]. split; [done|]. split; [done|].
    split; [by apply Forall_singleton|]. split; [done|]. done.
  - rewrite (bool_decide_eq_false_2 (role msg <> current_role)) by done. simpl.
    apply dec_stable in Hrole. rewrite Hrole.
    split; [done|]. split; [done|]. split; [done|].
    split; [apply Forall_app; split; [done|by apply Forall_singleton]|].
    split; [by destruct current|]. done.
Qed.

Lemma group_fold_inv (msgs : list Message) (st : group_state) :
  group_inv st -> group_inv (fold_left group_step msgs st).
Proof.
  revert st. induction msgs as [|msg msgs IH]; intros st Hst; cbn [fold_left];
    [done|].
  apply IH, group_step_inv, Hst.
Qed.

(** X8.  the role groups of a list of messages cut it into runs: put
    together they are the messages in order, no group is empty, the
    messages of a group have one role, and no message has the role of a
    message of the next group. *)
Theorem role_groups_partition (msgs : list Message) :
  concat (role_groups_of msgs) = msgs
  /\ Forall (fun group => group <> []) (role_groups_of msgs)
  /\ Forall same_role (role_groups_of msgs)
  /\ roles_alternate (role_groups_of msgs).
Proof.
  split; [apply role_groups_concat|]. unfold role_groups_of.
  pose proof (group_fold_inv msgs ([], None, [])) as Hinv.
  destruct (fold_left group_step msgs _) as [[groups current_role] current].
  destruct Hinv as (Hne & Hsame & Halt & Hcur & Hfirst & Hlast).
  { repeat split; auto; intros group msg Hgroup; done. }
  destruct current as [|m0 current'] eqn:Hcurrent; [done|].
  rewrite <- Hcurrent in *. assert (current <> []) as Hcurne by (by subst current).
  clear Hcurrent. rewrite Forall_forall in Hcur.
  split; [apply Forall_app; split; [done|by apply Forall_singleton]|].
  split.
  - apply Forall_app. split; [done|]. apply Forall_singleton.
    intros msg1 msg2 Hmsg1 Hmsg2. by rewrite (Hcur msg1), (Hcur msg2).
  - apply roles_alternate_snoc; [done|].
    intros group msg1 msg2 Hgroup Hmsg1 Hmsg2. rewrite (Hcur msg2) by done.
    by eapply Hlast.
Qed.

(** X9.  the role strategy passes over a conversation without messages:
    the chunks are those of the input with such conversations taken
    out. *)
Theorem role_ignores_empty_conversations (self : ChunkerEngine)
    (convs : list Conversation) (max_tokens : Z) :
  chunk_by_role self convs max_tokens
  = chunk_by_role self (filter (fun conv => get_messages conv <> []) convs) max_tokens.
Proof.
  unfold chunk_by_role. f_equal. generalize (([], [], 0) : pack_state) as st.
  induction convs as [|conv convs IH]; intros st; [done|].
  rewrite filter_cons. destruct (decide (get_messages conv <> [])) as [Hne|Hempty].
  - cbn [fold_left]. apply IH.
  - cbn [fold_left]. apply dec_stable in Hempty.
    unfold role_step at 2. rewrite Hempty. apply IH.
Qed.

(** ** A conversation over the budget cuts the input *)

Section ChunksBefore.

Context (self : ChunkerEngine) (max_tokens : Z).

Lemma split_step_before (emit : list Message -> Z -> Chunk) (pre : list Chunk)
    (st : split_state) (msg : Message) :
  split_step self emit max_tokens (split_with_chunks_before pre st) msg
  = split_with_chunks_before pre (split_step self emit max_tokens st msg).
Proof.
  destruct st as [[chunks temp] tokens]. unfold split_with_chunks_before, split_step.
  simpl. destruct (max_tokens <? tokens + msg_tokens self msg); [|done].
  destruct temp; [done|]. simpl. by rewrite app_assoc.
Qed.

Lemma split_messages_before (emit : list Message -> Z -> Chunk) (pre : list Chunk)
    (msgs : list Message) :
  split_messages self emit max_tokens pre msgs
  = pre ++ split_messages self emit max_tokens [] msgs.
Proof.
  unfold split_messages.
  assert (forall st,
            fold_left (split_step self emit max_tokens) msgs
              (split_with_chunks_before pre st)
            = split_with_chunks_before pre
                (fold_left (split_step self emit max_tokens) msgs st)) as Hfold.
  { induction msgs as [|msg msgs IH]; intros st; cbn [fold_left]; [done|].
    by rewrite split_step_before, IH. }
  specialize (Hfold ([], [], 0)). unfold split_with_chunks_before at 1 in Hfold.
  simpl in Hfold. rewrite app_nil_r in Hfold. rewrite Hfold. clear Hfold.
  destruct (fold_left _ msgs _) as [[chunks temp] tokens].
  unfold split_with_chunks_before, split_finish. simpl.
  destruct temp; [done|]. by rewrite app_assoc.
Qed.

Lemma size_step_before (pre : list Chunk) (st : pack_state) (conv : Conversation) :
  size_step self max_tokens (with_chunks_before pre st) conv
  = with_chunks_before pre (size_step self max_tokens st conv).
Proof.
  destruct st as [[chunks current] tokens]. unfold with_chunks_before, size_step.
  simpl. destruct (max_tokens <? conv_tokens self conv).
  - destruct current as [|c0 current']; simpl.
    + rewrite (split_messages_before _ (pre ++ chunks)).
      rewrite (split_messages_before _ chunks). by rewrite app_assoc.
    + rewrite !(split_messages_before _ (_ ++ _)). by rewrite <- !app_assoc.
  - destruct (tokens + conv_tokens self conv <=? max_tokens); [done|].
    simpl. by rewrite app_assoc.
Qed.

Lemma size_fold_before (pre : list Chunk) (convs : list Conversation)
    (st : pack_state) :
  fold_left (size_step self max_tokens) convs (with_chunks_before pre st)
  = with_chunks_before pre (fold_left (size_step self max_tokens) convs st).
Proof.
  revert st. induction convs as [|conv convs IH]; intros st; cbn [fold_left];
    [done|].
  by rewrite size_step_before, IH.
Qed.

(** The size strategy on an input with a conversation over the budget:
    what comes before it is packed on its own, then come the pieces of
    that conversation, then what comes after it is packed on its own. *)
Lemma chunk_by_size_cut (pre post : list Conversation) (conv : Conversation) :
  max_tokens < conv_tokens self conv ->
  chunk_by_size self (pre ++ conv :: post) max_tokens
  = chunk_by_size self pre max_tokens
    ++ split_messages self (size_piece conv) max_tokens [] (get_messages conv)
    ++ chunk_by_size self post max_tokens.
Proof.
  intros Hbig. unfold chunk_by_size. rewrite fold_left_app. cbn [fold_left].
  pose proof (size_fold_inv self max_tokens pre ([], [], 0)
                (pack_inv_init self max_tokens)) as Hinv.
  destruct (fold_left (size_step self max_tokens) pre _) as [[chunks current] tokens].
  destruct Hinv as (_ & Hsum & _).
  unfold size_step at 2. apply Z.ltb_lt in Hbig. rewrite Hbig.
  set (done := pack_finish size_chunk (chunks, current, tokens)).
  set (pieces := split_messages self (size_piece conv) max_tokens []
                   (get_messages conv)).
  assert (fold_left (size_step self max_tokens) post
            (done ++ pieces, [], 0)
          = with_chunks_before (done ++ pieces)
              (fold_left (size_step self max_tokens) post ([], [], 0))) as Hpost.
  { rewrite <- size_fold_before. unfold with_chunks_before. simpl.
    by rewrite app_nil_r. }
  destruct current as [|c0 current'] eqn:Hcur.
  - simpl in Hsum. subst tokens.
    rewrite (split_messages_before _ chunks). fold pieces.
    change chunks with done at 1. rewrite Hpost. clear Hpost.
    destruct (fold_left _ post _) as [[chunks' current'] tokens'].
    unfold with_chunks_before, pack_finish. simpl.
    destruct current'; by rewrite <- ?app_assoc.
  - rewrite (split_messages_before _ (chunks ++ _)). fold pieces.
    change (chunks ++ [size_chunk (c0 :: current') tokens]) with done.
    rewrite Hpost. clear Hpost.
    destruct (fold_left _ post _) as [[chunks' current''] tokens'].
    unfold with_chunks_before, pack_finish. simpl.
    destruct current''; by rewrite <- ?app_assoc.
Qed.

End ChunksBefore.

(** X10.  a conversation over the budget cuts the input of the size
    strategy in two parts that are packed apart: the chunks are those of
    the conversations before it, then the pieces of the conversation,
    then the chunks of the conversations after it. *)
Theorem size_oversized_is_barrier (self : ChunkerEngine)
    (pre post : list Conversation) (conv : Conversation) (max_tokens : Z) :
  max_tokens < conv_tokens self conv ->
  chunk_by_size self (pre ++ conv :: post) max_tokens
  = chunk_by_size self pre max_tokens
    ++ chunk_by_size self [conv] max_tokens
    ++ chunk_by_size self post max_tokens.
Proof.
  intros Hbig. rewrite chunk_by_size_cut by done. do 2 f_equal.
  pose proof (chunk_by_size_cut self max_tokens [] [] conv Hbig) as Hone.
  change ([] ++ [conv]) with [conv] in Hone. rewrite Hone.
  change (chunk_by_size self [] max_tokens) with (@nil Chunk).
  by rewrite app_nil_l, app_nil_r.
Qed.

Lemma size_oversized_is_barrier_witness :
  chunk_by_size Sample.engine
    ([Sample.conv_of [Sample.hi]]
     ++ Sample.conv_of [Sample.hi; Sample.hi; Sample.hi]
     :: [Sample.conv_of [Sample.hi]]) 20
  = chunk_by_size Sample.engine [Sample.conv_of [Sample.hi]] 20
    ++ chunk_by_size Sample.engine
         [Sample.conv_of [Sample.hi; Sample.hi; Sample.hi]] 20
    ++ chunk_by_size Sample.engine [Sample.conv_of [Sample.hi]] 20.
Proof.
  apply (size_oversized_is_barrier Sample.engine
           [Sample.conv_of [Sample.hi]] [Sample.conv_of [Sample.hi]]
           (Sample.conv_of [Sample.hi; Sample.hi; Sample.hi]) 20).
  by vm_compute.
Defined.

(** X11.  the size strategy stores nothing for a conversation that is over
    the budget and has no messages: the chunks are those of the input
    without it. *)
Theorem size_drops_oversized_without_messages (self : ChunkerEngine)
    (pre post : list Conversation) (conv : Conversation) (max_tokens : Z) :
  max_tokens < conv_tokens self conv ->
  get_messages conv = [] ->
  chunk_by_size self (pre ++ conv :: post) max_tokens
  = chunk_by_size self pre max_tokens ++ chunk_by_size self post max_tokens.
Proof.
  intros Hbig Hempty. rewrite chunk_by_size_cut by done. by rewrite Hempty.
Qed.

Lemma size_drops_oversized_without_messages_witness :
  chunk_by_size Sample.engine
    ([Sample.conv_of [Sample.hi]]
     ++ {| conv_id := Some "a conversation with a long identifier";
           title := Some "and with a long title, and nothing else";
           messages := None; _chunked := false; _chunked_by_role := false |}
     :: [Sample.conv_of [Sample.hi]]) 20
  = chunk_by_size Sample.engine [Sample.conv_of [Sample.hi]] 20
    ++ chunk_by_size Sample.engine [Sample.conv_of [Sample.hi]] 20.
Proof.
  apply (size_drops_oversized_without_messages Sample.engine
           [Sample.conv_of [Sample.hi]] [Sample.conv_of [Sample.hi]]).
  - by vm_compute.
  - reflexivity.
Defined.

(** ** The make of the topic clusters *)

Section TopicStructure.

Context (py : Interpreter) (self : ChunkerEngine) (max_tokens : Z).
Context (conversations : list Conversation) (topics : list string).

Lemma scan_fold_picks (i : nat) (js : list nat) (cluster : list nat)
    (assigned : list bool) (tokens : Z) :
  exists picked,
    (fold_left (scan_step py self conversations topics max_tokens i) js
       (cluster, assigned, tokens)).1.1 = cluster ++ picked
    /\ picked `sublist_of` js
    /\ Forall (fun j => similar py (topics !!! i) (topics !!! j) = true) picked.
Proof.
  revert cluster assigned tokens.
  induction js as [|j js IH]; intros cluster assigned tokens; cbn [fold_left].
  { exists []. by rewrite app_nil_r. }
  assert (exists picked,
            (fold_left (scan_step py self conversations topics max_tokens i) js
               (cluster, assigned, tokens)).1.1 = cluster ++ picked
            /\ picked `sublist_of` j :: js
            /\ Forall (fun j => similar py (topics !!! i) (topics !!! j) = true)
                 picked) as Hskip.
  { destruct (IH cluster assigned tokens) as (picked & Heq & Hsub & Hsim).
    exists picked. split; [done|]. split; [by apply sublist_cons|done]. }
  unfold scan_step at 2.
  destruct (assigned !!! j); [done|].
  destruct (similar py (topics !!! i) (topics !!! j)) eqn:Hsimilar; [|done].
  destruct (_ <=? _); [|done].
  destruct (IH (cluster ++ [j]) (<[j:=true]> assigned)
              (tokens + conv_tokens self (conversations !!! j)))
    as (picked & Heq & Hsub & Hsim).
  exists (j :: picked). split; [by rewrite Heq, <- app_assoc|].
  split; [by apply sublist_skip|by apply Forall_cons].
Qed.

Lemma seed_fold_structure (seeds : list nat) (clusters : list Cluster)
    (assigned : list bool) :
  Forall (fun i => (i < length conversations)%nat) seeds ->
  exists new,
    (fold_left (seed_step py self conversations topics max_tokens) seeds
       (clusters, assigned)).1 = clusters ++ new
    /\ Forall (fun cluster =>
                 cluster_structure py topics (length conversations) (indices cluster))
         new
    /\ omap seed_of new `sublist_of` seeds.
Proof.
  revert clusters assigned.
  induction seeds as [|i seeds IH]; intros clusters assigned Hseeds; cbn [fold_left].
  { exists []. by rewrite app_nil_r. }
  apply Forall_cons in Hseeds as [Hi Hseeds].
  unfold seed_step at 2. destruct (assigned !!! i).
  { destruct (IH clusters assigned Hseeds) as (new & Heq & Hnew & Hsub).
    exists new. split; [done|]. split; [done|by apply sublist_cons]. }
  destruct (scan_fold_picks i (seq (S i) (length conversations - S i)) [i]
              (<[i:=true]> assigned) (conv_tokens self (conversations !!! i)))
    as (picked & Hcluster & Hsub & Hsim).
  destruct (fold_left (scan_step py self conversations topics max_tokens i) _ _)
    as [[cluster assigned'] tokens]. simpl in Hcluster. subst cluster.
  cbv beta iota zeta.
  destruct (IH (clusters ++ [{| indices := i :: picked;
                                cluster_token_count := tokens |}])
              assigned' Hseeds) as (new & Heq & Hnew & Hseedsub).
  exists ({| indices := i :: picked; cluster_token_count := tokens |} :: new).
  split; [by rewrite Heq, <- app_assoc|]. split.
  - apply Forall_cons. split; [|done]. by exists i, picked.
  - simpl. by apply sublist_skip.
Qed.

End TopicStructure.

Lemma topic_clusters_structure (py : Interpreter) (self : ChunkerEngine)
    (convs : list Conversation) (max_tokens : Z) :
  Forall (fun cluster =>
            cluster_structure py (topic_signal <$> convs) (length convs)
              (indices cluster))
    (topic_clusters py self convs max_tokens)
  /\ omap seed_of (topic_clusters py self convs max_tokens)
     `sublist_of` seq 0 (length convs).
Proof.
  unfold topic_clusters.
  destruct (seed_fold_structure py self max_tokens convs (topic_signal <$> convs)
              (seq 0 (length convs)) [] (replicate (length convs) false))
    as (new & Heq & Hnew & Hsub).
  { apply Forall_forall. intros i Hi%elem_of_seq. lia. }
  rewrite Heq. done.
Qed.

Lemma topics_lookup (convs : list Conversation) (i : nat) :
  (i < length convs)%nat ->
  (topic_signal <$> convs) !!! i = topic_signal (convs !!! i).
Proof. apply list_lookup_total_fmap. Qed.

Lemma cluster_structure_signals (py : Interpreter) (convs : list Conversation)
    (cluster : list nat) :
  cluster_structure py (topic_signal <$> convs) (length convs) cluster ->
  exists i picked,
    cluster = i :: picked
    /\ (i < length convs)%nat
    /\ picked `sublist_of` seq (S i) (length convs - S i)
    /\ Forall (fun j => similar py (topic_signal (convs !!! i))
                          (topic_signal (convs !!! j)) = true) picked.
Proof.
  intros (i & picked & -> & Hi & Hsub & Hsim).
  exists i, picked. split; [done|]. split; [done|]. split; [done|].
  rewrite Forall_forall in Hsim. apply Forall_forall. intros j Hj.
  specialize (Hsim j Hj). rewrite !topics_lookup in Hsim; [done| |done].
  apply (elem_of_sublist _ _ _ Hj), elem_of_seq in Hsub. lia.
Qed.

(** X12.  every topic cluster begins with its seed; the other indices lie
    after the seed, ascend, and belong to conversations whose topic is
    similar to the topic of the seed. *)
Theorem topic_cluster_members (py : Interpreter) (self : ChunkerEngine)
    (convs : list Conversation) (max_tokens : Z) :
  Forall (fun cluster =>
            exists i picked,
              indices cluster = i :: picked
              /\ (i < length convs)%nat
              /\ picked `sublist_of` seq (S i) (length convs - S i)
              /\ Forall (fun j => similar py (topic_signal (convs !!! i))
                                    (topic_signal (convs !!! j)) = true) picked)
    (topic_clusters py self convs max_tokens).
Proof.
  eapply Forall_impl; [apply topic_clusters_structure|].
  intros cluster. apply cluster_structure_signals.
Qed.

(** X13.  the topic clusters, and so the chunks, come in the order of their
    seeds: the first indices of the clusters ascend. *)
Theorem topic_clusters_by_seed (py : Interpreter) (self : ChunkerEngine)
    (convs : list Conversation) (max_tokens : Z) :
  omap seed_of (topic_clusters py self convs max_tokens)
  `sublist_of` seq 0 (length convs)
  /\ length (omap seed_of (topic_clusters py self convs max_tokens))
     = length (topic_clusters py self convs max_tokens).
Proof.
  destruct (topic_clusters_structure py self convs max_tokens) as [Hstruct Hsub].
  split; [done|]. clear Hsub.
  induction Hstruct as [|cluster clusters (i & picked & Hcluster & _) _ IH]; [done|].
  change (omap seed_of (cluster :: clusters))
    with (match seed_of cluster with
          | Some seed => seed :: omap seed_of clusters
          | None => omap seed_of clusters
          end).
  unfold seed_of at 1. rewrite Hcluster. simpl. by rewrite IH.
Qed.

(** ** The similarity test *)

Lemma filter_all {A : Type} (P : A -> Prop) `{!forall x, Decision (P x)}
    (l : list A) :
  Forall P l -> filter P l = l.
Proof.
  induction 1 as [|x l Hx _ IH]; [done|]. by rewrite filter_cons_True, IH.
Qed.

Lemma similar_common_word (py : Interpreter) (topic_i topic_j : string) :
  similar py topic_i topic_j = true ->
  exists word, word ∈ topic_words py topic_i /\ word ∈ topic_words py topic_j.
Proof.
  unfold similar. intros Hsim%bool_decide_eq_true.
  destruct (set_and (topic_words py topic_i) (topic_words py topic_j))
    as [|word common] eqn:Hcommon; [simpl in Hsim; lia|].
  exists word. assert (word ∈ set_and (topic_words py topic_i)
                               (topic_words py topic_j)) as Hin.
  { rewrite Hcommon. by left. }
  unfold set_and in Hin. apply list_elem_of_filter in Hin. tauto.
Qed.

(** X14.  two topics pass the similarity test only if they have a word in
    common. *)
Theorem similar_shares_word (py : Interpreter) (topic_i topic_j : string) :
  similar py topic_i topic_j = true ->
  exists word,
    word ∈ Re.findall_words (Re.lower topic_i)
    /\ word ∈ Re.findall_words (Re.lower topic_j).
Proof.
  intros (word & Hi & Hj)%similar_common_word. exists word.
  unfold topic_words in *. rewrite set_layout_distinct in Hi, Hj.
  by rewrite !elem_of_remove_dups in Hi, Hj.
Qed.

Lemma similar_shares_word_witness :
  exists word,
    word ∈ Re.findall_words (Re.lower "Planning the trip")
    /\ word ∈ Re.findall_words (Re.lower "Trip report").
Proof.
  apply (similar_shares_word Sample.interp "Planning the trip" "Trip report").
  by vm_compute.
Defined.

(** X15.  a topic with at least one word passes the similarity test with
    itself. *)
Theorem similar_reflexive (py : Interpreter) (topic : string) :
  Re.findall_words (Re.lower topic) <> [] ->
  similar py topic topic = true.
Proof.
  intros Hwords. unfold similar, set_and.
  rewrite filter_all by (by apply Forall_forall).
  assert (topic_words py topic <> []) as Hne.
  { unfold topic_words. intros Hnil.
    pose proof (set_layout_distinct py (Re.findall_words (Re.lower topic))) as Hperm.
    rewrite Hnil in Hperm. symmetry in Hperm. apply Permutation_nil_r in Hperm.
    destruct (Re.findall_words (Re.lower topic)) as [|word words]; [done|].
    assert (word ∈ remove_dups (word :: words)) as Hin
      by (apply elem_of_remove_dups; by left).
    rewrite Hperm in Hin. by apply elem_of_nil in Hin. }
  apply bool_decide_eq_true.
  destruct (topic_words py topic) as [|word words]; [done|]. simpl length. lia.
Qed.

Lemma similar_reflexive_witness :
  similar Sample.interp "Trip report" "Trip report" = true.
Proof.
  apply (similar_reflexive Sample.interp "Trip report"). by vm_compute.
Defined.

(** X16.  a conversation whose topic has no word is alone in its topic
    cluster. *)
Theorem wordless_topic_alone (py : Interpreter) (self : ChunkerEngine)
    (convs : list Conversation) (max_tokens : Z) :
  Forall (fun cluster =>
            forall j, j ∈ indices cluster ->
              topic_words py (topic_signal (convs !!! j)) = [] ->
              indices cluster = [j])
    (topic_clusters py self convs max_tokens).
Proof.
  eapply Forall_impl; [apply topic_clusters_structure|].
  intros cluster (i & picked & Hcluster & Hi & Hsub & Hsim)%cluster_structure_signals.
  intros j Hj Hwordless. rewrite Hcluster in Hj |- *.
  destruct picked as [|k picked].
  { apply list_elem_of_singleton in Hj. by subst j. }
  exfalso. apply elem_of_cons in Hj as [->|Hj].
  - apply Forall_cons in Hsim as [Hsim _].
    destruct (similar_common_word py _ _ Hsim) as (word & Hword & _).
    rewrite Hwordless in Hword. by apply elem_of_nil in Hword.
  - rewrite Forall_forall in Hsim.
    destruct (similar_common_word py _ _ (Hsim j Hj)) as (word & _ & Hword).
    rewrite Hwordless in Hword. by apply elem_of_nil in Hword.
Qed.

(** ** The name of the output file *)
















(** ** What [process_file] does to the files *)

Lemma process_file_success (py : Interpreter) (self : ChunkerEngine) (w : World)
    (file_path strategy : string) (max_tokens : Z) (out : string) :
  (process_file py self w file_path strategy max_tokens).2 = inr (Some out) ->
  exists convs chunks,
    load_conversations w file_path = inr convs
    /\ apply_strategy py self strategy convs max_tokens = Some chunks
    /\ out = output_file_name self file_path strategy
    /\ write_error w out = None
    /\ process_file py self w file_path strategy max_tokens
       = (write_file out
            (JsonResult (processing_result file_path strategy max_tokens chunks)) w,
          inr (Some out)).
Proof.
  unfold process_file.
  destruct (load_conversations w file_path) as [e|convs]; [done|].
  destruct (apply_strategy py self strategy convs max_tokens) as [chunks|] eqn:Hrun;
    [|done].
  simpl.
  destruct (write_error w (output_file_name self file_path strategy)) eqn:Hwrite;
    [done|].
  simpl. intros [= <-]. by exists convs, chunks.
Qed.





(** X18.  the file [process_file] writes is no input for [process_file]: it
    holds an object without the key [conversations], and a run on it,
    with any strategy and budget, prints the format error and returns
    [None]. *)
Theorem process_file_output_rejected (py : Interpreter) (self : ChunkerEngine)
    (w : World) (file_path strategy : string) (max_tokens : Z) (out : string)
    (py' : Interpreter) (self' : ChunkerEngine) (strategy' : string)
    (max_tokens' : Z) :
  (process_file py self w file_path strategy max_tokens).2 = inr (Some out) ->
  process_file py' self' (process_file py self w file_path strategy max_tokens).1
    out strategy' max_tokens'
  = (print "Error loading conversations: Invalid conversation format"
       (process_file py self w file_path strategy max_tokens).1,
     inr None).
Proof.
  intros (convs & chunks & Hload & Hrun & Hout & Hwrite & ->)%process_file_success.
  cbn [fst]. unfold process_file at 1.
  rewrite (invalid_collection_load _ out
             (JsonResult (processing_result file_path strategy max_tokens chunks)));
    [done| |done].
  simpl. apply lookup_insert_eq.
Qed.

Lemma process_file_output_rejected_witness :
  (process_file Sample.interp Sample.engine
     (process_file Sample.interp Sample.engine
        (Sample.world_with (JsonList [Sample.conv_of [Sample.hi]]))
        "in.json" "size" 1500).1
     "processed/in_chunked_size.json" "topic" 100).2 = inr None.
Proof.
  rewrite (process_file_output_rejected Sample.interp Sample.engine
             (Sample.world_with (JsonList [Sample.conv_of [Sample.hi]]))
             "in.json" "size" 1500 "processed/in_chunked_size.json"
             Sample.interp Sample.engine "topic" 100 eq_refl).
  reflexivity.
Defined.






(** ** The totals of a topic run *)

Lemma total_conversations_length (chunks : list Chunk) :
  foldr Z.add 0 ((fun chunk => Z.of_nat (length (conversations chunk))) <$> chunks)
  = Z.of_nat (length (concat (conversations <$> chunks))).
Proof.
  induction chunks as [|chunk chunks IH]; [done|].
  rewrite !fmap_cons. cbn [foldr concat]. rewrite IH, length_app. lia.
Qed.

Lemma concat_length_ge {A : Type} (ls : list (list A)) :
  Forall (fun l => l <> []) ls -> (length ls <= length (concat ls))%nat.
Proof.
  induction 1 as [|l ls Hl _ IH]; [done|]. simpl. rewrite length_app.
  destruct l; [done|]. simpl. lia.
Qed.

(** X20.  the result a topic run writes counts every loaded conversation
    once: when [process_file] returns the name of its output, that file
    holds a result whose [total_conversations] is the number of
    conversations of the input and whose [total_chunks] is at most
    that. *)
Theorem topic_result_totals (py : Interpreter) (self : ChunkerEngine) (w : World)
    (file_path : string) (max_tokens : Z) (convs : list Conversation)
    (out : string) :
  load_conversations w file_path = inr convs ->
  (process_file py self w file_path "topic" max_tokens).2 = inr (Some out) ->
  exists result,
    files (process_file py self w file_path "topic" max_tokens).1 !! out
    = Some (JsonResult result)
    /\ total_conversations result = Z.of_nat (length convs)
    /\ total_chunks result <= total_conversations result.
Proof.
  intros Hload (convs' & chunks & Hload' & Hrun & Hout & Hwrite & ->)%process_file_success.
  rewrite Hload in Hload'. injection Hload' as <-.
  change (apply_strategy py self "topic" convs max_tokens)
    with (Some (chunk_by_topic py self convs max_tokens)) in Hrun.
  injection Hrun as <-.
  eexists. split; [apply lookup_insert_eq|]. cbn [total_conversations total_chunks
    processing_result].
  rewrite total_conversations_length.
  assert (length (concat (conversations <$> chunk_by_topic py self convs max_tokens))
          = length convs) as Hlen.
  { unfold chunk_by_topic. rewrite cluster_chunks_conversations, length_fmap.
    rewrite (Permutation_length (topic_clusters_permutation py self convs max_tokens)).
    apply length_seq. }
  split; [by rewrite Hlen|].
  apply inj_le. rewrite <- (length_fmap conversations). apply concat_length_ge.
  apply Forall_fmap. eapply Forall_impl; [apply (chunk_by_topic_packed py self max_tokens)|].
  by intros chunk (Hne & _).
Qed.

Lemma topic_result_totals_witness :
  exists result,
    files (process_file Sample.interp Sample.engine
             (Sample.world_with
                (JsonList [Sample.conv_of [Sample.hi]; Sample.conv_of [Sample.long_msg]]))
             "in.json" "topic" 1500).1
      !! "processed/in_chunked_topic.json" = Some (JsonResult result)
    /\ total_conversations result = 2
    /\ total_chunks result <= total_conversations result.
Proof.
  apply (topic_result_totals Sample.interp Sample.engine
           (Sample.world_with
              (JsonList [Sample.conv_of [Sample.hi]; Sample.conv_of [Sample.long_msg]]))
           "in.json" 1500
           [Sample.conv_of [Sample.hi]; Sample.conv_of [Sample.long_msg]]
           "processed/in_chunked_topic.json");
    reflexivity.
Defined.

(** ** The recall tester *)

Lemma set_layout_NoDup (py : Interpreter) (l : list string) : NoDup (set_layout py l).
Proof. rewrite set_layout_distinct. apply NoDup_remove_dups. Qed.

Lemma elem_of_set_layout (py : Interpreter) (l : list string) (x : string) :
  x ∈ set_layout py l <-> x ∈ l.
Proof. by rewrite set_layout_distinct, elem_of_remove_dups. Qed.

Lemma set_and_comm_length (a b : list string) :
  NoDup a -> NoDup b -> length (set_and a b) = length (set_and b a).
Proof.
  intros Ha Hb. apply Permutation_length, NoDup_Permutation.
  - by apply NoDup_filter.
  - by apply NoDup_filter.
  - intros x. unfold set_and. rewrite !list_elem_of_filter. tauto.
Qed.

Lemma set_or_comm_length (py : Interpreter) (a b : list string) :
  length (set_or py a b) = length (set_or py b a).
Proof.
  apply Permutation_length, NoDup_Permutation; [apply set_layout_NoDup..|].
  intros x. unfold set_or. rewrite !elem_of_set_layout, !elem_of_app. tauto.
Qed.

(** X21.  the similarity of two texts does not depend on their order. *)
Theorem simple_similarity_symmetric (py : Interpreter) (self : RecallTester)
    (text1 text2 : string) :
  simple_similarity py self text1 text2 = simple_similarity py self text2 text1.
Proof.
  unfold simple_similarity.
  rewrite (set_and_comm_length (topic_words py text1) (topic_words py text2))
    by apply set_layout_NoDup.
  by rewrite (set_or_comm_length py (topic_words py text1)).
Qed.

Lemma set_and_le_set_or (py : Interpreter) (a b : list string) :
  NoDup a -> (length (set_and a b) <= length (set_or py a b))%nat.
Proof.
  intros Ha. apply submseteq_length, NoDup_submseteq; [by apply NoDup_filter|].
  intros x. unfold set_and, set_or.
  rewrite list_elem_of_filter, elem_of_set_layout, elem_of_app. tauto.
Qed.

(** X22.  the similarity of two texts is a quotient between 0 and 1: the
    numerator is not negative and not above the denominator, which is at
    least 1. *)
Theorem simple_similarity_bounds (py : Interpreter) (self : RecallTester)
    (text1 text2 : string) :
  0 <= (simple_similarity py self text1 text2).1
       <= (simple_similarity py self text1 text2).2
  /\ 1 <= (simple_similarity py self text1 text2).2.
Proof.
  unfold simple_similarity. simpl.
  pose proof (set_and_le_set_or py (topic_words py text1) (topic_words py text2)
                (set_layout_NoDup py _)).
  lia.
Qed.

Lemma insert_score_perm (x : nat * (Z * Z)) (l : list (nat * (Z * Z))) :
  insert_score x l ≡ₚ x :: l.
Proof.
  induction l as [|y l IH]; [done|]. simpl.
  destruct (score_lt x.2 y.2); [|done]. rewrite IH. apply Permutation_swap.
Qed.

Lemma sort_scores_perm (l : list (nat * (Z * Z))) : sort_scores l ≡ₚ l.
Proof.
  induction l as [|x l IH]; [done|]. simpl.
  by rewrite insert_score_perm, IH.
Qed.

Lemma score_ge_trans (x y z : Z * Z) :
  0 < x.2 -> 0 < y.2 -> 0 < z.2 ->
  score_ge x y -> score_ge y z -> score_ge x z.
Proof.
  unfold score_ge, score_lt. rewrite !Z.ltb_ge. intros Hx Hy Hz Hxy Hyz.
  destruct x as [a b], y as [c d], z as [e f]. simpl in *.
  assert (e * d * b <= a * d * f) by nia. nia.
Qed.

Lemma insert_score_sorted (x : nat * (Z * Z)) (l : list (nat * (Z * Z))) :
  0 < x.2.2 ->
  Forall (fun y => 0 < y.2.2) l ->
  StronglySorted (fun a b => score_ge a.2 b.2) l ->
  StronglySorted (fun a b => score_ge a.2 b.2) (insert_score x l).
Proof.
  intros Hx Hpos Hsorted.
  induction Hsorted as [|y l Hl IH Hy]; simpl.
  { repeat constructor. }
  apply Forall_cons in Hpos as [Hypos Hpos].
  destruct (score_lt x.2 y.2) eqn:Hxy.
  - constructor; [by apply IH|].
    rewrite insert_score_perm. constructor; [|done].
    unfold score_ge, score_lt in *. apply Z.ltb_lt in Hxy. apply Z.ltb_ge. lia.
  - constructor; [by constructor|].
    constructor; [done|].
    rewrite Forall_forall in Hy, Hpos |- *. intros z Hz.
    apply (score_ge_trans _ y.2); auto.
Qed.

Lemma sort_scores_sorted (l : list (nat * (Z * Z))) :
  Forall (fun y => 0 < y.2.2) l ->
  StronglySorted (fun a b => score_ge a.2 b.2) (sort_scores l).
Proof.
  induction 1 as [|x l Hx Hpos IH]; simpl; [constructor|].
  apply insert_score_sorted; [done| |done].
  by rewrite sort_scores_perm.
Qed.

Lemma slice_to_submseteq {A : Type} (k : Z) (l : list A) : slice_to k l ⊆+ l.
Proof. unfold slice_to. destruct (0 <=? k); apply submseteq_take. Qed.

Lemma slice_to_length {A : Type} (k : Z) (l : list A) :
  Z.of_nat (length (slice_to k l))
  = if 0 <=? k then Z.min k (Z.of_nat (length l))
    else Z.max 0 (Z.of_nat (length l) + k).
Proof.
  unfold slice_to. destruct (Z.leb_spec 0 k); rewrite length_take; lia.
Qed.

Lemma lookup_total_seq_chunks (l : list Chunk) :
  (fun i => l !!! i) <$> seq 0 (length l) = l.
Proof.
  apply list_eq. intros i. rewrite list_lookup_fmap.
  destruct (decide (i < length l)%nat) as [Hlt|Hge].
  - rewrite lookup_seq_lt by done. simpl.
    by rewrite (list_lookup_lookup_total_lt l i Hlt).
  - rewrite lookup_seq_ge by lia. simpl. symmetry. apply lookup_ge_None. lia.
Qed.

Section Recall.

Context (py : Interpreter) (self : RecallTester) (query : string).
Context (chunks : list Chunk).

Lemma scores_indices :
  fst <$> imap (fun i chunk => (i, chunk_score py self query chunk)) chunks
  = seq 0 (length chunks).
Proof.
  rewrite fmap_imap.
  transitivity (imap (fun (j : nat) (_ : Chunk) => j) chunks); [by apply imap_ext|].
  rewrite (imap_seq_0 chunks (fun i => i)). apply list_fmap_id.
Qed.

Lemma scores_of_chunks :
  Forall (fun entry =>
            (entry.1 < length chunks)%nat
            /\ entry.2 = chunk_score py self query (chunks !!! entry.1))
    (imap (fun i chunk => (i, chunk_score py self query chunk)) chunks).
Proof.
  apply Forall_forall. intros entry (i & chunk & -> & Hi)%elem_of_lookup_imap.
  simpl. split; [by eapply lookup_lt_Some|].
  by rewrite (list_lookup_total_correct _ _ _ Hi).
Qed.

Lemma scores_positive :
  Forall (fun entry => 0 < entry.2.2)
    (imap (fun i chunk => (i, chunk_score py self query chunk)) chunks).
Proof.
  eapply Forall_impl; [apply scores_of_chunks|].
  intros entry [_ ->]. unfold chunk_score, simple_similarity. simpl. lia.
Qed.

End Recall.

Lemma find_relevant_chunks_ranking (py : Interpreter) (self : RecallTester)
    (query : string) (memory_data : option (list Chunk)) (top_k : Z) :
  find_relevant_chunks py self query memory_data top_k
  = (fun idx => default [] memory_data !!! idx)
      <$> (fst <$> slice_to top_k
                     (sort_scores
                        (imap (fun i chunk => (i, chunk_score py self query chunk))
                           (default [] memory_data)))).
Proof.
  unfold find_relevant_chunks. destruct (default [] memory_data) as [|chunk chunks];
    [|done].
  unfold slice_to. simpl. destruct (0 <=? top_k); by rewrite ?take_nil.
Qed.

Lemma ranking_indices (py : Interpreter) (self : RecallTester) (query : string)
    (chunks : list Chunk) :
  fst <$> sort_scores (imap (fun i chunk => (i, chunk_score py self query chunk)) chunks)
  ≡ₚ seq 0 (length chunks).
Proof. by rewrite sort_scores_perm, scores_indices. Qed.

(** X23.  the chunks [find_relevant_chunks] returns are chunks of the
    memory, none of them more often than the memory holds it. *)
Theorem recall_returns_stored (py : Interpreter) (self : RecallTester)
    (query : string) (memory_data : option (list Chunk)) (top_k : Z) :
  find_relevant_chunks py self query memory_data top_k ⊆+ default [] memory_data.
Proof.
  rewrite find_relevant_chunks_ranking.
  set (chunks := default [] memory_data).
  transitivity ((fun idx => chunks !!! idx) <$> seq 0 (length chunks));
    [|by rewrite lookup_total_seq_chunks].
  apply fmap_submseteq.
  rewrite <- (ranking_indices py self query chunks).
  apply fmap_submseteq, slice_to_submseteq.
Qed.

(** X24.  [find_relevant_chunks] returns [top_k] chunks, or all when the
    memory holds fewer; for a negative [top_k] it returns the ranking
    without its last [-top_k] chunks. *)
Theorem recall_count (py : Interpreter) (self : RecallTester)
    (query : string) (memory_data : option (list Chunk)) (top_k : Z) :
  Z.of_nat (length (find_relevant_chunks py self query memory_data top_k))
  = if 0 <=? top_k then Z.min top_k (Z.of_nat (length (default [] memory_data)))
    else Z.max 0 (Z.of_nat (length (default [] memory_data)) + top_k).
Proof.
  rewrite find_relevant_chunks_ranking, !length_fmap, slice_to_length.
  by rewrite (Permutation_length (sort_scores_perm _)), length_imap.
Qed.

(** X25.  when [top_k] is at least the number of chunks of the memory,
    [find_relevant_chunks] returns all of them, each once. *)
Theorem recall_all (py : Interpreter) (self : RecallTester)
    (query : string) (memory_data : option (list Chunk)) (top_k : Z) :
  Z.of_nat (length (default [] memory_data)) <= top_k ->
  find_relevant_chunks py self query memory_data top_k ≡ₚ default [] memory_data.
Proof.
  intros Hk. rewrite find_relevant_chunks_ranking.
  set (chunks := default [] memory_data) in *.
  unfold slice_to. destruct (Z.leb_spec 0 top_k) as [_|Hneg]; [|lia].
  rewrite take_ge.
  - rewrite ranking_indices. by rewrite lookup_total_seq_chunks.
  - rewrite (Permutation_length (sort_scores_perm _)), length_imap. lia.
Qed.

Lemma recall_all_witness :
  find_relevant_chunks Sample.interp {| memory_dir := "memory" |} "hello"
    (Some [size_chunk [Sample.conv_of [Sample.hi]] 12;
           size_chunk [Sample.conv_of [Sample.long_msg]] 18]) 3
  ≡ₚ [size_chunk [Sample.conv_of [Sample.hi]] 12;
      size_chunk [Sample.conv_of [Sample.long_msg]] 18].
Proof.
  apply (recall_all Sample.interp {| memory_dir := "memory" |} "hello"
           (Some [size_chunk [Sample.conv_of [Sample.hi]] 12;
                  size_chunk [Sample.conv_of [Sample.long_msg]] 18]) 3).
  simpl. lia.
Defined.

Lemma ranking_sorted (py : Interpreter) (self : RecallTester) (query : string)
    (chunks : list Chunk) :
  StronglySorted (fun a b => score_ge a.2 b.2)
    (sort_scores (imap (fun i chunk => (i, chunk_score py self query chunk)) chunks)).
Proof. apply sort_scores_sorted, scores_positive. Qed.

Lemma ranking_of_chunks (py : Interpreter) (self : RecallTester) (query : string)
    (chunks : list Chunk) :
  Forall (fun entry => entry.2 = chunk_score py self query (chunks !!! entry.1))
    (sort_scores (imap (fun i chunk => (i, chunk_score py self query chunk)) chunks)).
Proof.
  rewrite sort_scores_perm. eapply Forall_impl; [apply scores_of_chunks|].
  by intros entry [_ Hscore].
Qed.

Lemma StronglySorted_take {A : Type} (R : relation A) (n : nat) (l : list A) :
  StronglySorted R l -> StronglySorted R (take n l).
Proof.
  intros Hsorted. revert n.
  induction Hsorted as [|x l Hl IH Hx]; intros [|n]; simpl; try constructor.
  - apply IH.
  - by apply Forall_take.
Qed.

Lemma StronglySorted_scores_chunks (py : Interpreter) (self : RecallTester)
    (query : string) (chunks : list Chunk) (l : list (nat * (Z * Z))) :
  Forall (fun entry => entry.2 = chunk_score py self query (chunks !!! entry.1)) l ->
  StronglySorted (fun a b => score_ge a.2 b.2) l ->
  StronglySorted
    (fun chunk1 chunk2 =>
       score_ge (chunk_score py self query chunk1) (chunk_score py self query chunk2))
    ((fun idx => chunks !!! idx) <$> (fst <$> l)).
Proof.
  intros Hof Hsorted.
  induction Hsorted as [|x l Hl IH Hx]; [constructor|].
  apply Forall_cons in Hof as [Hxof Hof]. rewrite !fmap_cons.
  constructor; [by apply IH|].
  rewrite <- list_fmap_compose. apply Forall_fmap.
  rewrite Forall_forall in Hx, Hof |- *. intros y Hy. simpl.
  rewrite <- Hxof, <- (Hof y Hy). by apply Hx.
Qed.

(** X26.  [find_relevant_chunks] returns the chunks in the order of their
    scores: no chunk scores less against the query than a chunk after
    it. *)
Theorem recall_descending (py : Interpreter) (self : RecallTester)
    (query : string) (memory_data : option (list Chunk)) (top_k : Z) :
  StronglySorted
    (fun chunk1 chunk2 =>
       score_ge (chunk_score py self query chunk1) (chunk_score py self query chunk2))
    (find_relevant_chunks py self query memory_data top_k).
Proof.
  rewrite find_relevant_chunks_ranking.
  apply StronglySorted_scores_chunks.
  - unfold slice_to. destruct (0 <=? top_k); apply Forall_take, ranking_of_chunks.
  - unfold slice_to. destruct (0 <=? top_k); apply StronglySorted_take, ranking_sorted.
Qed.

(** X27.  the first chunk [find_relevant_chunks] returns scores at least as
    much against the query as every chunk of the memory. *)
Theorem recall_best_first (py : Interpreter) (self : RecallTester)
    (query : string) (memory_data : option (list Chunk)) (top_k : Z)
    (best : Chunk) :
  head (find_relevant_chunks py self query memory_data top_k) = Some best ->
  Forall (fun chunk =>
            score_ge (chunk_score py self query best) (chunk_score py self query chunk))
    (default [] memory_data).
Proof.
  rewrite find_relevant_chunks_ranking.
  set (chunks := default [] memory_data).
  pose proof (ranking_sorted py self query chunks) as Hsorted.
  pose proof (ranking_of_chunks py self query chunks) as Hof.
  pose proof (sort_scores_perm
                (imap (fun i chunk => (i, chunk_score py self query chunk)) chunks))
    as Hperm.
  destruct (sort_scores _) as [|first ranking] eqn:Hranking.
  { unfold slice_to. destruct (0 <=? top_k); by rewrite take_nil. }
  intros Hhead.
  assert (best = chunks !!! first.1) as ->.
  { unfold slice_to in Hhead.
    destruct (0 <=? top_k);
      [destruct (Z.to_nat top_k)|destruct (length (first :: ranking) - _)%nat];
      simpl in Hhead; by simplify_eq. }
  apply Forall_cons in Hof as [Hfirst Hof]. rewrite <- Hfirst.
  apply StronglySorted_inv in Hsorted as [_ Hbest].
  apply Forall_forall. intros chunk [i Hi]%list_elem_of_lookup.
  assert ((i, chunk_score py self query chunk) ∈ first :: ranking) as Hin.
  { rewrite Hperm.
    by apply (elem_of_lookup_imap_2
                (fun i chunk => (i, chunk_score py self query chunk)) chunks chunk i). }
  apply elem_of_cons in Hin as [<-|Hin].
  - unfold score_ge, score_lt. simpl. apply Z.ltb_irrefl.
  - rewrite Forall_forall in Hbest. by apply (Hbest _ Hin).
Qed.

Lemma recall_best_first_witness :
  Forall (fun chunk =>
            score_ge
              (chunk_score Sample.interp {| memory_dir := "memory" |} "hello"
                 (size_chunk [Sample.conv_of [Sample.long_msg]] 18))
              (chunk_score Sample.interp {| memory_dir := "memory" |} "hello" chunk))
    [size_chunk [Sample.conv_of [Sample.hi]] 12;
     size_chunk [Sample.conv_of [Sample.long_msg]] 18].
Proof.
  apply (recall_best_first Sample.interp {| memory_dir := "memory" |} "hello"
           (Some [size_chunk [Sample.conv_of [Sample.hi]] 12;
                  size_chunk [Sample.conv_of [Sample.long_msg]] 18]) 1).
  by vm_compute.
Defined.
